(** * tmux-focus-zoom: the layout codec, the zoom transform and [ApplyZoom]

    Shallow embedding of [layout.go] (the layout tree, its parser
    [ParseLayout], its printer [BuildLayout], the tmux checksum, the zoom
    transform [ApplyZoomToLayout] / [applyNestedZoom]) and of the guards of
    [ApplyZoom].

    Conventions of the embedding:
    - Go [int] is 64-bit: values are [Z], and every arithmetic operation of
      the source wraps with [wrap64]; Go's [/] truncates, so it is [Z.quot].
    - Go strings are byte strings: [string] (a list of 8-bit [ascii]).
    - [strings.Index] followed by the two slices around the match is
      [cut_at]; the rune loops that look for the end of the [y] field and of
      the pane id are [scan_until] (all the bytes looked for are ASCII, so
      scanning runes or bytes finds the same index).
    - The [for] loop of [parseChildren] and the recursion of [parseNode] are
      written with a fuel argument; [ParseLayout] gives them
      [2 * length + 2], which is never exhausted (see C10).
    - The Go functions that mutate the copied tree in place return the
      updated node here. *)

From Stdlib Require Import ZArith String Ascii List Bool Lia.
From Stdlib Require Import Sorting.Permutation Sorting.Sorted.
Import ListNotations.

(** Nested induction principles for trees whose children are a [list]. *)
Scheme All for list.

Open Scope Z_scope.

(** ** Go integers *)

Definition int_min : Z := - 2 ^ 63.
Definition int_max : Z := 2 ^ 63 - 1.

(** Two's complement wrap-around of a 64-bit [int]. *)
Definition wrap64 (z : Z) : Z := (z + 2 ^ 63) mod 2 ^ 64 - 2 ^ 63.

Definition add64 (a b : Z) : Z := wrap64 (a + b).
Definition sub64 (a b : Z) : Z := wrap64 (a - b).
Definition mul64 (a b : Z) : Z := wrap64 (a * b).
(** Go's [a / b] for [b <> 0]: truncating, [int_min / -1] wraps. *)
Definition quot64 (a b : Z) : Z := wrap64 (Z.quot a b).

(** ** Byte strings *)

(** [i := strings.Index(s, string(c))] followed by [s[:i]] and [s[i+1:]]. *)
Fixpoint cut_at (c : ascii) (s : string) : option (string * string) :=
  match s with
  | EmptyString => None
  | String d s' =>
      if Ascii.eqb d c then Some (EmptyString, s')
      else match cut_at c s' with
           | Some (pre, post) => Some (String d pre, post)
           | None => None
           end
  end.

(** The loop [for i, c := range s { if stop(c) { endIdx = i; break } }]
    followed by [s[:endIdx]] and [s[endIdx:]]. *)
Fixpoint scan_until (stop : ascii -> bool) (s : string) : string * string :=
  match s with
  | EmptyString => (EmptyString, EmptyString)
  | String d s' =>
      if stop d then (EmptyString, s)
      else let (pre, post) := scan_until stop s' in (String d pre, post)
  end.

(** ** [strconv.Atoi] *)

Definition is_digit (c : ascii) : bool :=
  (48 <=? nat_of_ascii c)%nat && (nat_of_ascii c <=? 57)%nat.

Definition digit_value (c : ascii) : Z := Z.of_nat (nat_of_ascii c) - 48.

Fixpoint digits_value (acc : Z) (s : string) : option Z :=
  match s with
  | EmptyString => Some acc
  | String c s' =>
      if is_digit c then digits_value (acc * 10 + digit_value c) s' else None
  end.

(** An optional sign, then one or more decimal digits, and the value must
    fit in an [int]: otherwise a syntax or range error ([None]). *)
Definition Atoi (s : string) : option Z :=
  let '(neg, ds) :=
    match s with
    | String c r =>
        if Ascii.eqb c "-"%char then (true, r)
        else if Ascii.eqb c "+"%char then (false, r) else (false, s)
    | EmptyString => (false, s)
    end in
  match ds with
  | EmptyString => None
  | String _ _ =>
      match digits_value 0 ds with
      | None => None
      | Some n =>
          let v := if neg then - n else n in
          if ((int_min <=? v) && (v <=? int_max))%Z then Some v else None
      end
  end.

(** ** [fmt]'s [%d] *)

Definition digit_char (d : Z) : ascii := ascii_of_nat (Z.to_nat (48 + d)).

(** Decimal digits of [n >= 0], most significant first, in front of [acc];
    20 steps print every [|n| < 10^20], hence every [int]. *)
Fixpoint digits_of (fuel : nat) (n : Z) (acc : string) : string :=
  match fuel with
  | O => acc
  | S f =>
      let acc' := String (digit_char (n mod 10)%Z) acc in
      if (n <? 10)%Z then acc' else digits_of f (n / 10)%Z acc'
  end.

Definition Itoa (n : Z) : string :=
  if n <? 0 then String "-"%char (digits_of 20 (- n) EmptyString)
  else digits_of 20 n EmptyString.

(** ** The layout tree *)

Inductive SplitType : Type :=
| SplitNone        (* leaf pane *)
| SplitHorizontal  (* children side by side, [{...}] *)
| SplitVertical.   (* children top to bottom, [[...]] *)

Inductive LayoutNode : Type := mkLayoutNode {
  Width : Z;
  Height : Z;
  X : Z;
  Y : Z;
  PaneID : Z;          (* -1 if not a leaf pane *)
  SplitTy : SplitType;
  Children : list LayoutNode
}.

(** ** [ParseLayout] *)

Inductive result (A : Type) : Type :=
| Ok (a : A)
| Err (msg : string)
| OutOfFuel.

Arguments Ok {A} a.
Arguments Err {A} msg.
Arguments OutOfFuel {A}.

Definition is_y_end (c : ascii) : bool :=
  Ascii.eqb c ","%char || Ascii.eqb c "{"%char || Ascii.eqb c "["%char ||
  Ascii.eqb c "}"%char || Ascii.eqb c "]"%char.

Definition is_pane_end (c : ascii) : bool :=
  Ascii.eqb c ","%char || Ascii.eqb c "}"%char || Ascii.eqb c "]"%char.

(** [if len(s) > 0 && s[0] == ',' { s = s[1:] }] *)
Definition skip_comma (s : string) : string :=
  match s with
  | String c s' => if Ascii.eqb c ","%char then s' else s
  | EmptyString => s
  end.

Fixpoint parseNode (fuel : nat) (s : string)
  : result (LayoutNode * string) :=
  match fuel with
  | O => OutOfFuel
  | S fuel' =>
  match cut_at "x"%char s with
  | None => Err "invalid node: no 'x' in dimensions"%string
  | Some (ws, s1) =>
  match Atoi ws with
  | None => Err "invalid width"%string
  | Some width =>
  match cut_at ","%char s1 with
  | None => Err "invalid node: no comma after height"%string
  | Some (hs, s2) =>
  match Atoi hs with
  | None => Err "invalid height"%string
  | Some height =>
  match cut_at ","%char s2 with
  | None => Err "invalid node: no comma after x"%string
  | Some (xs, s3) =>
  match Atoi xs with
  | None => Err "invalid x"%string
  | Some x =>
  let (ys, s4) := scan_until is_y_end s3 in
  match Atoi ys with
  | None => Err "invalid y"%string
  | Some y =>
  match s4 with
  | EmptyString =>
      (* end of string *)
      Ok (mkLayoutNode width height x y (-1) SplitNone [], EmptyString)
  | String c s5 =>
      if Ascii.eqb c "{"%char then
        match parseChildren fuel' s5 "}"%char with
        | Ok (cs, rest) =>
            Ok (mkLayoutNode width height x y (-1) SplitHorizontal cs, rest)
        | Err m => Err m
        | OutOfFuel => OutOfFuel
        end
      else if Ascii.eqb c "["%char then
        match parseChildren fuel' s5 "]"%char with
        | Ok (cs, rest) =>
            Ok (mkLayoutNode width height x y (-1) SplitVertical cs, rest)
        | Err m => Err m
        | OutOfFuel => OutOfFuel
        end
      else if Ascii.eqb c ","%char then
        let (ps, s6) := scan_until is_pane_end s5 in
        match Atoi ps with
        | None => Err "invalid pane ID"%string
        | Some p => Ok (mkLayoutNode width height x y p SplitNone [], s6)
        end
      else if Ascii.eqb c "}"%char || Ascii.eqb c "]"%char then
        (* end of the parent's children list *)
        Ok (mkLayoutNode width height x y (-1) SplitNone [], s4)
      else Err "unexpected character"%string
  end end end end end end end end
  end

(** The loop [for len(s) > 0 && s[0] != endChar { ... }] and the final
    [if len(s) > 0 && s[0] == endChar { s = s[1:] }]. *)
with parseChildren (fuel : nat) (s : string) (endChar : ascii)
  : result (list LayoutNode * string) :=
  match fuel with
  | O => OutOfFuel
  | S fuel' =>
  match s with
  | EmptyString => Ok ([], EmptyString)
  | String c s' =>
      if Ascii.eqb c endChar then Ok ([], s')
      else
        match parseNode fuel' s with
        | Ok (child, rest) =>
            match parseChildren fuel' (skip_comma rest) endChar with
            | Ok (cs, r) => Ok (child :: cs, r)
            | Err m => Err m
            | OutOfFuel => OutOfFuel
            end
        | Err m => Err m
        | OutOfFuel => OutOfFuel
        end
  end
  end.

Definition parse_fuel (s : string) : nat := (2 * String.length s + 2)%nat.

Definition ParseLayout (layout : string) : result LayoutNode :=
  match cut_at ","%char layout with
  | None => Err "invalid layout: no checksum separator"%string
  | Some (_, rest) =>
      match parseNode (parse_fuel rest) rest with
      | Ok (node, _) => Ok node
      | Err m => Err m
      | OutOfFuel => OutOfFuel
      end
  end.

(** ** [BuildLayout] *)

(** [buildNodeString]; [strings.Join(childStrs, ",")] is [String.concat]. *)
Fixpoint buildNodeString (node : LayoutNode) : string :=
  match node with
  | mkLayoutNode w h x y p st cs =>
      let base := (Itoa w ++ "x" ++ Itoa h ++ "," ++ Itoa x ++ "," ++ Itoa y)%string in
      match st with
      | SplitNone => (base ++ "," ++ Itoa p)%string
      | SplitHorizontal =>
          (base ++ "{" ++ String.concat "," (map buildNodeString cs) ++ "}")%string
      | SplitVertical =>
          (base ++ "[" ++ String.concat "," (map buildNodeString cs) ++ "]")%string
      end
  end.

(** One step of the [uint16] loop of [calculateChecksum]:
    [csum = (csum >> 1) + ((csum & 1) << 15); csum += uint16(s[i])]. *)
Definition csum_step (csum : Z) (c : ascii) : Z :=
  let rot := (Z.shiftr csum 1 + Z.shiftl (Z.land csum 1) 15) mod 2 ^ 16 in
  (rot + Z.of_nat (nat_of_ascii c)) mod 2 ^ 16.

Fixpoint csum_loop (csum : Z) (s : string) : Z :=
  match s with
  | EmptyString => csum
  | String c s' => csum_loop (csum_step csum c) s'
  end.

Definition checksum_value (s : string) : Z := csum_loop 0 s.

(** [fmt]'s [%x] digits (lowercase) of [n >= 0]. *)
Definition hex_char (d : Z) : ascii :=
  if d <? 10 then ascii_of_nat (Z.to_nat (48 + d))
  else ascii_of_nat (Z.to_nat (87 + d)).

Fixpoint hex_digits (fuel : nat) (n : Z) (acc : string) : string :=
  match fuel with
  | O => acc
  | S f =>
      let acc' := String (hex_char (n mod 16)) acc in
      if n <? 16 then acc' else hex_digits f (n / 16) acc'
  end.

Fixpoint zeros (k : nat) : string :=
  match k with
  | O => EmptyString
  | S k' => String "0"%char (zeros k')
  end.

(** [fmt.Sprintf("%04x", n)] for an unsigned [n]: the hex digits, padded
    with zeros on the left to a width of 4. *)
Definition format_04x (n : Z) : string :=
  let ds := hex_digits 20 n EmptyString in
  (zeros (4 - String.length ds) ++ ds)%string.

Definition calculateChecksum (s : string) : string :=
  format_04x (checksum_value s).

Definition BuildLayout (node : LayoutNode) : string :=
  let body := buildNodeString node in
  let checksum := calculateChecksum body in
  (checksum ++ "," ++ body)%string.

(** ** Tree queries: [containsPane], [countPanes], [copyLayoutNode] *)

Fixpoint containsPane (node : LayoutNode) (paneID : Z) : bool :=
  match node with
  | mkLayoutNode _ _ _ _ p _ cs =>
      (p =? paneID) || existsb (fun c => containsPane c paneID) cs
  end.

Fixpoint countPanes (node : LayoutNode) : Z :=
  match node with
  | mkLayoutNode _ _ _ _ _ SplitNone _ => 1
  | mkLayoutNode _ _ _ _ _ _ cs =>
      fold_left (fun count c => add64 count (countPanes c)) cs 0
  end.

Fixpoint copyLayoutNode (node : LayoutNode) : LayoutNode :=
  match node with
  | mkLayoutNode w h x y p st cs => mkLayoutNode w h x y p st (map copyLayoutNode cs)
  end.

(** The index of the first element satisfying [f] ([-1] in Go: [None]). *)
Fixpoint find_index {A} (f : A -> bool) (l : list A) : option nat :=
  match l with
  | [] => None
  | a :: l' => if f a then Some O else option_map S (find_index f l')
  end.

(** [s[i] = v] on a Go slice, [i] in range. *)
Fixpoint set_nth {A} (i : nat) (v : A) (l : list A) : list A :=
  match l, i with
  | [], _ => []
  | _ :: l', O => v :: l'
  | a :: l', S i' => a :: set_nth i' v l'
  end.

(** ** The zoom transform

    [applyHorizontalZoom] / [applyVerticalZoom] and [updateChildWidths] /
    [updateChildHeights] are the same code on the two axes; they are
    written once over an [Axis]: width with [X] and [SplitHorizontal],
    height with [Y] and [SplitVertical]. *)

Inductive Axis : Type := AxisWidth | AxisHeight.

Definition size_along (ax : Axis) (n : LayoutNode) : Z :=
  match ax with AxisWidth => Width n | AxisHeight => Height n end.

Definition pos_along (ax : Axis) (n : LayoutNode) : Z :=
  match ax with AxisWidth => X n | AxisHeight => Y n end.

Definition set_size (ax : Axis) (n : LayoutNode) (v : Z) : LayoutNode :=
  match n, ax with
  | mkLayoutNode w h x y p st cs, AxisWidth => mkLayoutNode v h x y p st cs
  | mkLayoutNode w h x y p st cs, AxisHeight => mkLayoutNode w v x y p st cs
  end.

Definition set_pos (ax : Axis) (n : LayoutNode) (v : Z) : LayoutNode :=
  match n, ax with
  | mkLayoutNode w h x y p st cs, AxisWidth => mkLayoutNode w h v y p st cs
  | mkLayoutNode w h x y p st cs, AxisHeight => mkLayoutNode w h x v p st cs
  end.

(** The split whose children are laid out along [ax]. *)
Definition split_along (ax : Axis) : SplitType :=
  match ax with AxisWidth => SplitHorizontal | AxisHeight => SplitVertical end.

(** The split whose children all span the parent along [ax]. *)
Definition split_across (ax : Axis) : SplitType :=
  match ax with AxisWidth => SplitVertical | AxisHeight => SplitHorizontal end.

Definition SplitType_eqb (a b : SplitType) : bool :=
  match a, b with
  | SplitNone, SplitNone | SplitHorizontal, SplitHorizontal
  | SplitVertical, SplitVertical => true
  | _, _ => false
  end.

(** [updateChildWidths] ([ax = AxisWidth]) and [updateChildHeights]. *)
Fixpoint update_child_size (ax : Axis) (node : LayoutNode) (v : Z) : LayoutNode :=
  match node with
  | mkLayoutNode w h x y p st cs =>
      let cs' := if SplitType_eqb st (split_across ax)
                 then map (fun c => update_child_size ax c v) cs
                 else cs in
      set_size ax (mkLayoutNode w h x y p st cs') v
  end.

Definition updateChildWidths := update_child_size AxisWidth.
Definition updateChildHeights := update_child_size AxisHeight.

(** [otherWidth]: the sum of the sizes of the children other than the
    active one; [i] is the index of the head of [cs]. *)
Fixpoint other_sum (ax : Axis) (activeIdx i : nat) (acc : Z) (cs : list LayoutNode) : Z :=
  match cs with
  | [] => acc
  | c :: cs' =>
      other_sum ax activeIdx (S i) (if Nat.eqb i activeIdx then acc else add64 acc (size_along ax c)) cs'
  end.

(** The first loop: [newWidths[i]] for every child. *)
Definition new_size (ax : Axis) (nchildren : Z) (activeIdx : nat)
    (target remaining other : Z) (i : nat) (c : LayoutNode) : Z :=
  if Nat.eqb i activeIdx then target
  else if 0 <? other then quot64 (mul64 (size_along ax c) remaining) other
  else quot64 remaining (sub64 nchildren 1).

Fixpoint new_sizes (ax : Axis) (nchildren : Z) (activeIdx : nat)
    (target remaining other : Z) (i : nat) (cs : list LayoutNode) : list Z :=
  match cs with
  | [] => []
  | c :: cs' =>
      new_size ax nchildren activeIdx target remaining other i c
      :: new_sizes ax nchildren activeIdx target remaining other (S i) cs'
  end.

(** [widthUsed]: the running sum of the new sizes. *)
Definition sum64 (l : list Z) : Z := fold_left add64 l 0.

(** The last loop: set each child's size and position, propagate the size
    down ([updateChildWidths]) and advance [currentX] past a border. *)
Fixpoint place (ax : Axis) (current : Z) (cs : list LayoutNode) (sizes : list Z)
  : list LayoutNode :=
  match cs, sizes with
  | c :: cs', s :: ss =>
      update_child_size ax (set_pos ax (set_size ax c s) current) s
      :: place ax (add64 current (add64 s 1)) cs' ss
  | _, _ => cs
  end.

(** [applyHorizontalZoom] ([ax = AxisWidth]) and [applyVerticalZoom]. *)
Definition apply_axis_zoom (ax : Axis) (node : LayoutNode) (activeIdx : nat)
    (zoomPercent : Z) : LayoutNode :=
  match node with
  | mkLayoutNode w h x y p st cs =>
    if (List.length cs <=? 1)%nat then node else
    let n := Z.of_nat (List.length cs) in
    let borders := sub64 n 1 in
    let available := sub64 (size_along ax node) borders in
    let target := quot64 (mul64 available zoomPercent) 100 in
    let other := other_sum ax activeIdx O 0 cs in
    let remaining := sub64 available target in
    let sizes := new_sizes ax n activeIdx target remaining other O cs in
    let used := sum64 sizes in
    let sizes' :=
      if used =? available then sizes
      else set_nth activeIdx (add64 (nth activeIdx sizes 0) (sub64 available used)) sizes in
    mkLayoutNode w h x y p st (place ax (pos_along ax node) cs sizes')
  end.

Definition applyHorizontalZoom := apply_axis_zoom AxisWidth.
Definition applyVerticalZoom := apply_axis_zoom AxisHeight.

(** The dispatch on the split type shared by [ApplyZoomToLayout] and
    [applyNestedZoom]. *)
Definition zoom_by_split (node : LayoutNode) (activeIdx : nat) (zoomPercent : Z) : LayoutNode :=
  match SplitTy node with
  | SplitHorizontal => applyHorizontalZoom node activeIdx zoomPercent
  | SplitVertical => applyVerticalZoom node activeIdx zoomPercent
  | SplitNone => node
  end.

Definition ApplyZoomToLayout (node : LayoutNode) (activePaneID zoomPercent : Z) : LayoutNode :=
  let result := copyLayoutNode node in
  match find_index (fun c => containsPane c activePaneID) (Children result) with
  | None => result
  | Some i => zoom_by_split result i zoomPercent
  end.

(** Apply [g] to the first element satisfying [f] (the loop of
    [applyNestedZoom] with its [return]). *)
Fixpoint update_first {A} (f : A -> bool) (g : A -> A) (l : list A) : list A :=
  match l with
  | [] => []
  | a :: l' => if f a then g a :: l' else a :: update_first f g l'
  end.

Fixpoint height (node : LayoutNode) : nat :=
  match node with
  | mkLayoutNode _ _ _ _ _ _ cs => S (fold_right (fun c m => Nat.max (height c) m) O cs)
  end.

(** [applyNestedZoom] with a fuel bound on the depth of its recursion;
    each call descends one level, so [height node] is enough. *)
Fixpoint nested_zoom (fuel : nat) (node : LayoutNode) (activePaneID zoomPercent : Z)
  : LayoutNode :=
  match fuel with
  | O => node
  | S f =>
    match node with
    | mkLayoutNode w h x y p st cs =>
      mkLayoutNode w h x y p st
        (update_first (fun c => containsPane c activePaneID)
           (fun child =>
              if (1 <? List.length (Children child))%nat then
                match find_index (fun g => containsPane g activePaneID) (Children child) with
                | Some j => nested_zoom f (zoom_by_split child j zoomPercent) activePaneID zoomPercent
                | None => child
                end
              else child)
           cs)
    end
  end.

Definition applyNestedZoom (node : LayoutNode) (activePaneID zoomPercent : Z) : LayoutNode :=
  nested_zoom (height node) node activePaneID zoomPercent.

(** What [ApplyZoom] does to the parsed snapshot: the zoom at the root
    followed by the nested zoom. *)
Definition zoom_transform (tree : LayoutNode) (activePaneID zoomPercent : Z) : LayoutNode :=
  applyNestedZoom (ApplyZoomToLayout tree activePaneID zoomPercent) activePaneID zoomPercent.

(** ** [ApplyZoom] and its collaborators

    The tmux server and the state file are a [Host]: the answers of the
    queries (the trimmed output of [tmux display-message -p ...], [None]
    when tmux exits non-zero) and whether a command succeeds.  The commands
    that [ApplyZoom] issues, successful or not, are logged in order.
    [debugf] writes a debug trace only and is left out. *)

Record State : Type := mkState {
  Enabled : bool;
  Session : string;
  Window : string;
  Snapshot : string
}.

Inductive Cmd : Type :=
| CmdSelectLayout (layout : string)                (* tmux select-layout *)
| CmdResizePaneWidth (paneID : string) (width : Z)  (* tmux resize-pane -x *)
| CmdResizePaneHeight (paneID : string) (height : Z) (* tmux resize-pane -y *)
| CmdDisplayMessage (msg : string)                 (* tmux display-message *)
| CmdSaveState (st : State)                        (* write the state file *)
| CmdClearState.                                   (* remove the state file *)

Record Host : Type := mkHost {
  q_session_name : option string;
  q_window_index : option string;
  q_pane_id : option string;
  q_window_panes : option string;
  q_window_layout : option string;
  q_zoom_percent_option : option string;
  cmd_succeeds : Cmd -> bool
}.

(** A state and error monad over the command log. *)
Definition M (A : Type) : Type := Host -> list Cmd -> (A + string) * list Cmd.

Definition ret {A} (a : A) : M A := fun _ log => (inl a, log).
Definition fail {A} (e : string) : M A := fun _ log => (inr e, log).
Definition bind {A B} (m : M A) (k : A -> M B) : M B :=
  fun h log =>
    match m h log with
    | (inl a, log') => k a h log'
    | (inr e, log') => (inr e, log')
    end.
(** [if err := m; err != nil { handler(err) }] *)
Definition catch {A} (m : M A) (handler : string -> M A) : M A :=
  fun h log =>
    match m h log with
    | (inr e, log') => handler e h log'
    | r => r
    end.
(** [_ = m]: the error is dropped. *)
Definition ignore {A} (m : M A) : M unit :=
  fun h log => let '(_, log') := m h log in (inl tt, log').

Notation "'let*' x ':=' m 'in' k" := (bind m (fun x => k))
  (at level 200, x name, m at level 100, k at level 200).

Definition query (q : Host -> option string) : M string :=
  fun h log =>
    match q h with
    | Some out => (inl out, log)
    | None => (inr "tmux: exit status 1"%string, log)
    end.

Definition run (c : Cmd) : M unit :=
  fun h log =>
    (if cmd_succeeds h c then inl tt else inr "command failed"%string, log ++ [c]).

Definition from_atoi (s : string) : M Z :=
  match Atoi s with
  | Some n => ret n
  | None => fail "strconv.Atoi: invalid syntax"%string
  end.

Definition GetCurrentSession : M string := query q_session_name.
Definition GetCurrentWindow : M string := query q_window_index.
Definition GetWindowLayout : M string := query q_window_layout.

Definition GetPaneCount : M Z :=
  let* out := query q_window_panes in from_atoi out.

(** [pane_id] is ["%42"]: the [%] is stripped before [Atoi]. *)
Definition GetActivePaneID : M Z :=
  let* paneID := query q_pane_id in
  let paneID' :=
    match paneID with
    | String c r => if Ascii.eqb c "%"%char then r else paneID
    | EmptyString => paneID
    end in
  from_atoi paneID'.

Definition DefaultZoomPercent : Z := 65.

Definition GetZoomPercent : M Z :=
  fun h log =>
    (inl match q_zoom_percent_option h with
         | None | Some EmptyString => DefaultZoomPercent
         | Some out =>
             match Atoi out with
             | Some percent =>
                 if (percent <? 10) || (95 <? percent) then DefaultZoomPercent else percent
             | None => DefaultZoomPercent
             end
         end, log).

Definition SelectLayout (layout : string) : M unit := run (CmdSelectLayout layout).
Definition DisplayMessage (msg : string) : M unit := run (CmdDisplayMessage msg).
Definition SaveState (st : State) : M unit := run (CmdSaveState st).
Definition ClearState : M unit := run CmdClearState.

Definition CaptureSnapshot : M State :=
  let* session := GetCurrentSession in
  let* window := GetCurrentWindow in
  let* layout := GetWindowLayout in
  ret (mkState true session window layout).

Definition RestoreSnapshot (state : State) : M unit :=
  if String.eqb (Snapshot state) EmptyString then ret tt
  else SelectLayout (Snapshot state).

Section ApplyZoomDef.

(** The degraded path ([applyZoomFallback]: per-pane [resize-pane]
    commands computed from [list-panes]); [ApplyZoom] is stated for every
    such procedure. *)
Variable applyZoomFallback : State -> Z -> M unit.

Definition ApplyZoom (state : State) : M unit :=
  let* paneCount := GetPaneCount in
  if paneCount <=? 1 then ret tt else
  let* session := GetCurrentSession in
  let* window := GetCurrentWindow in
  if negb (String.eqb session (Session state)) || negb (String.eqb window (Window state))
  then ret tt else
  let* activePaneID := GetActivePaneID in
  match ParseLayout (Snapshot state) with
  | Err _ | OutOfFuel =>
      let* _ := catch (RestoreSnapshot state)
                  (fun err =>
                     let* _ := ignore ClearState in
                     let* _ := ignore (DisplayMessage "Focus zoom: disabled (layout changed)"%string) in
                     fail err) in
      applyZoomFallback state activePaneID
  | Ok layoutTree =>
      (* the working state: [state.Snapshot] is updated on a re-snapshot *)
      let* working :=
        if countPanes layoutTree =? paneCount then ret (state, layoutTree) else
        let* newState := CaptureSnapshot in
        let* _ := SaveState newState in
        let state' := mkState (Enabled state) (Session state) (Window state) (Snapshot newState) in
        match ParseLayout (Snapshot state') with
        | Ok t => ret (state', t)
        | Err e => fail e
        | OutOfFuel => fail "out of fuel"%string
        end in
      let '(state', layoutTree') := working in
      let* zoomPercent := GetZoomPercent in
      let zoomedTree := zoom_transform layoutTree' activePaneID zoomPercent in
      let newLayout := BuildLayout zoomedTree in
      catch (SelectLayout newLayout)
        (fun err => let* _ := ignore (RestoreSnapshot state') in fail err)
  end.

End ApplyZoomDef.

(** ** The fallback: [applyZoomFallback] and its collaborators *)

(** [x, _ := strconv.Atoi(s)]: the [int] [Atoi] returns beside its error.
    [ParseUint]'s digit loop stops at the first byte that is not a digit
    (syntax error, value 0) or as soon as the value passes [2^64 - 1]
    (range error, value clamped); [ParseInt] then clamps to [int]. The
    fast path that [Atoi] takes for 1 to 18 bytes gives the same values. *)
Inductive uint_result : Type := UintOk (n : Z) | UintSyntax | UintRange.

Fixpoint parse_uint10 (n : Z) (s : string) : uint_result :=
  match s with
  | EmptyString => UintOk n
  | String c s' =>
      if is_digit c then
        let n1 := n * 10 + digit_value c in
        if 2 ^ 64 - 1 <? n1 then UintRange else parse_uint10 n1 s'
      else UintSyntax
  end.

Definition atoi_value (s : string) : Z :=
  let '(neg, ds) :=
    match s with
    | String c r =>
        if Ascii.eqb c "-"%char then (true, r)
        else if Ascii.eqb c "+"%char then (false, r) else (false, s)
    | EmptyString => (false, s)
    end in
  match ds with
  | EmptyString => 0
  | String _ _ =>
      match parse_uint10 0 ds with
      | UintSyntax => 0
      | UintRange => if neg then int_min else int_max
      | UintOk n =>
          if neg then (if 2 ^ 63 <? n then int_min else - n)
          else (if 2 ^ 63 <=? n then int_max else n)
      end
  end.

(** [strings.Split(s, string(c))]: the pieces between the separators; an
    empty [s] gives one empty piece. *)
Fixpoint split_on (c : ascii) (s : string) : list string :=
  match s with
  | EmptyString => [EmptyString]
  | String d s' =>
      if Ascii.eqb d c then EmptyString :: split_on c s'
      else match split_on c s' with
           | [] => [String d EmptyString]
           | x :: xs => String d x :: xs
           end
  end.

Module Pane.
(** [PaneInfo]. *)
Record PaneInfo : Type := mkPaneInfo {
  ID : string;
  Index : Z;
  Width : Z;
  Height : Z;
  Left : Z;
  Top : Z;
  Active : bool
}.
End Pane.

(** The tmux answers the fallback reads (the trimmed output of
    [list-panes -F ...] and of [display-message -p '#{window_width}'] and
    [-p '#{window_height}'], [None] when tmux fails). *)
Record FallbackHost : Type := mkFallbackHost {
  q_list_panes : option string;
  q_window_width : option string;
  q_window_height : option string
}.

Definition query_answer (answer : option string) : M string :=
  fun _ log =>
    match answer with
    | Some out => (inl out, log)
    | None => (inr "tmux: exit status 1"%string, log)
    end.

(** The loop of [GetPanes] over the lines of the output. *)
Fixpoint panes_of_lines (lines : list string) : list Pane.PaneInfo :=
  match lines with
  | [] => []
  | line :: rest =>
      if String.eqb line EmptyString then panes_of_lines rest else
      match split_on ":"%char line with
      | [id; index; width; height; left_; top; active] =>
          Pane.mkPaneInfo id (atoi_value index) (atoi_value width) (atoi_value height)
            (atoi_value left_) (atoi_value top) (String.eqb active "1"%string)
          :: panes_of_lines rest
      | _ => panes_of_lines rest
      end
  end.

Definition GetPanes (fh : FallbackHost) : M (list Pane.PaneInfo) :=
  let* out := query_answer (q_list_panes fh) in
  ret (panes_of_lines (split_on "010"%char out)).

Definition GetWindowSize (fh : FallbackHost) : M (Z * Z) :=
  let* w := query_answer (q_window_width fh) in
  let* h := query_answer (q_window_height fh) in
  let* width := from_atoi w in
  let* height := from_atoi h in
  ret (width, height).

Definition ResizePaneWidth (paneID : string) (width : Z) : M unit :=
  run (CmdResizePaneWidth paneID width).
Definition ResizePaneHeight (paneID : string) (height : Z) : M unit :=
  run (CmdResizePaneHeight paneID height).

(** [column] (left, width, panes) and [row] (top, height, panes). *)
Record Group : Type := mkGroup {
  gkey : Z;
  gsize : Z;
  gpanes : list Pane.PaneInfo
}.

(** The map of [findColumns] ([key = Left], [size = Width]) and of
    [findRowsInColumn] ([key = Top], [size = Height]) as an association
    list: a pane joins the group of its key (appended, the size becoming
    the larger one) or opens a new group. *)
Fixpoint group_insert (key size : Pane.PaneInfo -> Z) (p : Pane.PaneInfo) (gs : list Group)
  : list Group :=
  match gs with
  | [] => [mkGroup (key p) (size p) [p]]
  | g :: gs' =>
      if gkey g =? key p then
        mkGroup (gkey g) (if gsize g <? size p then size p else gsize g) (gpanes g ++ [p]) :: gs'
      else g :: group_insert key size p gs'
  end.

Definition group_map (key size : Pane.PaneInfo -> Z) (panes : list Pane.PaneInfo) : list Group :=
  fold_left (fun gs p => group_insert key size p gs) panes [].

(** [sort.Slice] by increasing key. The keys of the map are distinct, so
    every sort gives this order, whatever order the map is read in. *)
Fixpoint insert_by_key (g : Group) (gs : list Group) : list Group :=
  match gs with
  | [] => [g]
  | g' :: gs' => if gkey g <=? gkey g' then g :: gs else g' :: insert_by_key g gs'
  end.

Definition sort_by_key (gs : list Group) : list Group := fold_right insert_by_key [] gs.

Definition find_groups (key size : Pane.PaneInfo -> Z) (panes : list Pane.PaneInfo) : list Group :=
  sort_by_key (group_map key size panes).

Definition findColumns (panes : list Pane.PaneInfo) : list Group :=
  find_groups Pane.Left Pane.Width panes.
Definition findRowsInColumn (columnPanes : list Pane.PaneInfo) : list Group :=
  find_groups Pane.Top Pane.Height columnPanes.

(** [columns[activeIdx]] out of range is a Go panic. *)
Definition resizeColumnsProportionally (panes : list Pane.PaneInfo) (columns : list Group)
    (activeIdx : nat) (targetWidth winWidth : Z) : M unit :=
  if (List.length columns <=? 1)%nat then ret tt else
  match nth_error columns activeIdx with
  | Some col =>
      match gpanes col with
      | p :: _ => ignore (ResizePaneWidth (Pane.ID p) targetWidth)
      | [] => ret tt
      end
  | None => fail "index out of range"%string
  end.

Definition resizeRowsProportionally (panes : list Pane.PaneInfo) (rows : list Group)
    (activeIdx : nat) (targetHeight winHeight : Z) : M unit :=
  if (List.length rows <=? 1)%nat then ret tt else
  match nth_error rows activeIdx with
  | Some r =>
      match gpanes r with
      | p :: _ => ignore (ResizePaneHeight (Pane.ID p) targetHeight)
      | [] => ret tt
      end
  | None => fail "index out of range"%string
  end.

Definition applyProportionalZoom (panes : list Pane.PaneInfo) (active : Pane.PaneInfo)
    (winWidth winHeight zoomPercent : Z) : M unit :=
  let columns := findColumns panes in
  let targetWidth := quot64 (mul64 winWidth zoomPercent) 100 in
  let activeColIdx := find_index (fun col => gkey col =? Pane.Left active) columns in
  let* _ :=
    match activeColIdx with
    | Some i =>
        if (1 <? List.length columns)%nat
        then resizeColumnsProportionally panes columns i targetWidth winWidth
        else ret tt
    | None => ret tt
    end in
  match activeColIdx with
  | None => ret tt
  | Some i =>
      match nth_error columns i with
      | None => ret tt
      | Some activeColumn =>
          if (1 <? List.length (gpanes activeColumn))%nat then
            let rows := findRowsInColumn (gpanes activeColumn) in
            let activeRowIdx := find_index (fun r => gkey r =? Pane.Top active) rows in
            let colHeight := add64 (sum64 (map Pane.Height (gpanes activeColumn)))
                                   (sub64 (Z.of_nat (List.length rows)) 1) in
            let targetHeight := quot64 (mul64 colHeight zoomPercent) 100 in
            match activeRowIdx with
            | Some j =>
                if (1 <? List.length rows)%nat
                then resizeRowsProportionally panes rows j targetHeight colHeight
                else ret tt
            | None => ret tt
            end
          else ret tt
      end
  end.

(** [applyZoomFallback]; [state] and [activePaneID] are not read: the
    active pane is the one [list-panes] flags. *)
Definition applyZoomFallback (fh : FallbackHost) (state : State) (activePaneID : Z) : M unit :=
  let* panes := GetPanes fh in
  let* size := GetWindowSize fh in
  let '(winWidth, winHeight) := size in
  match List.find Pane.Active panes with
  | None => ret tt
  | Some activePane =>
      let* zoomPercent := GetZoomPercent in
      applyProportionalZoom panes activePane winWidth winHeight zoomPercent
  end.

(** ** The commands: [cmdToggle], [cmdApply], [cmdStatus] *)

(** What [os.ReadFile] finds at the state file's path. *)
Inductive StateFile : Type :=
| FileMissing
| FileUnreadable (err : string)
| FileData (data : string).

(** [fmt.Errorf(prefix + "%w", err)] around a step. *)
Definition wrap_err {A} (prefix : string) (m : M A) : M A :=
  catch m (fun e => fail (prefix ++ e)%string).

Definition IsMatchingWindow (state : State) : M bool :=
  let* session := GetCurrentSession in
  let* window := GetCurrentWindow in
  ret (String.eqb session (Session state) && String.eqb window (Window state)).

(** [currentPanes, _ := GetPaneCount()]: 0 when tmux fails, otherwise the
    value [Atoi] returns beside its error. *)
Definition GetPaneCount_ignoring_err : M Z :=
  fun h log =>
    (inl match q_window_panes h with
         | Some out => atoi_value out
         | None => 0
         end, log).

Definition statusColor : string := "#f9e2af".
(** The icon: the four UTF-8 bytes of U+F0349. *)
Definition zoomIcon : string :=
  String (ascii_of_nat 243) (String (ascii_of_nat 176)
    (String (ascii_of_nat 141) (String (ascii_of_nat 137) EmptyString))).

Definition status_text (word : string) : string :=
  ("#[fg=" ++ statusColor ++ "]" ++ zoomIcon ++ " " ++ word ++ "#[default] ")%string.

Section Commands.

(** [json.Unmarshal] into a zero [State]. *)
Variable Unmarshal : string -> State + string.
Variable applyZoomFallback : State -> Z -> M unit.

Definition LoadState (file : StateFile) : State + string :=
  match file with
  | FileMissing => inl (mkState false EmptyString EmptyString EmptyString)
  | FileUnreadable err => inr err
  | FileData data => Unmarshal data
  end.

Definition cmdToggle (file : StateFile) : M unit :=
  match LoadState file with
  | inr err => fail ("LoadState: " ++ err)%string
  | inl state =>
      if Enabled state then
        let* canRestore :=
          if String.eqb (Snapshot state) EmptyString then ret false else
          match ParseLayout (Snapshot state) with
          | Ok snapshotTree =>
              let* currentPanes := GetPaneCount_ignoring_err in
              ret (countPanes snapshotTree =? currentPanes)
          | _ => ret false
          end in
        let* _ := if canRestore then ignore (RestoreSnapshot state) else ret tt in
        let* _ := wrap_err "ClearState: " ClearState in
        DisplayMessage "Focus zoom: OFF"
      else
        let* newState := wrap_err "CaptureSnapshot: " CaptureSnapshot in
        let* _ := wrap_err "SaveState: " (SaveState newState) in
        let* _ := wrap_err "ApplyZoom: " (ApplyZoom applyZoomFallback newState) in
        DisplayMessage "Focus zoom: ON"
  end.

Definition cmdApply (file : StateFile) : M unit :=
  match LoadState file with
  | inr err => fail err
  | inl state => if negb (Enabled state) then ret tt else ApplyZoom applyZoomFallback state
  end.

(** The text [cmdStatus] prints is its result; it always returns [nil]. *)
Definition cmdStatus (file : StateFile) : M string :=
  match LoadState file with
  | inr _ => ret (status_text "OFF")
  | inl state =>
      if negb (Enabled state) then ret (status_text "OFF") else
      catch (let* match_ := IsMatchingWindow state in
             ret (if match_ then status_text "ON" else status_text "OFF"))
            (fun _ => ret (status_text "OFF"))
  end.

End Commands.

(** ** Predicates used to state the properties *)

(** Size conservation at one node: the children's sizes along the split
    axis plus one border per gap give the node's size (no condition on a
    leaf). *)
Definition conserved_here (node : LayoutNode) : bool :=
  match node with
  | mkLayoutNode w h _ _ _ st cs =>
      let n := Z.of_nat (List.length cs) in
      match st with
      | SplitNone => true
      | SplitHorizontal => fold_right Z.add 0 (map Width cs) + (n - 1) =? w
      | SplitVertical => fold_right Z.add 0 (map Height cs) + (n - 1) =? h
      end
  end.

Fixpoint conserved_everywhere (node : LayoutNode) : bool :=
  match node with
  | mkLayoutNode _ _ _ _ _ _ cs =>
      conserved_here node && forallb conserved_everywhere cs
  end.

(** Some leaf of the tree is the pane [paneID]. *)
Fixpoint leaf_has_pane (node : LayoutNode) (paneID : Z) : bool :=
  match node with
  | mkLayoutNode _ _ _ _ p SplitNone cs =>
      (p =? paneID) || existsb (fun c => leaf_has_pane c paneID) cs
  | mkLayoutNode _ _ _ _ _ _ cs => existsb (fun c => leaf_has_pane c paneID) cs
  end.

(** The tree without its geometry: split kinds, pane ids and the order
    of the children. *)
Inductive Shape : Type := mkShape (p : Z) (st : SplitType) (cs : list Shape).

Fixpoint shape (node : LayoutNode) : Shape :=
  match node with
  | mkLayoutNode _ _ _ _ p st cs => mkShape p st (map shape cs)
  end.

(** The checksum as the specification words it: a 16-bit accumulator,
    for each byte a rotation right by one bit (the low bit re-enters at the
    high end), then the byte added modulo [2^16]; printed as four
    lowercase hexadecimal digits. *)
Definition spec_rotr16 (a : Z) : Z := Z.lor (Z.shiftr a 1) (Z.shiftl (Z.land a 1) 15).

Definition spec_checksum (s : string) : Z :=
  fold_left (fun acc c => (spec_rotr16 acc + Z.of_nat (nat_of_ascii c)) mod 2 ^ 16)
    (list_ascii_of_string s) 0.

Definition spec_hex_digit (d : Z) : ascii :=
  match String.get (Z.to_nat d) "0123456789abcdef" with
  | Some c => c
  | None => "?"%char
  end.

Definition spec_hex4 (n : Z) : string :=
  String (spec_hex_digit (n / 4096 mod 16))
    (String (spec_hex_digit (n / 256 mod 16))
       (String (spec_hex_digit (n / 16 mod 16))
          (String (spec_hex_digit (n mod 16)) EmptyString))).

(** Every byte of [s] satisfies [p]. *)
Fixpoint str_forall (p : ascii -> bool) (s : string) : bool :=
  match s with
  | EmptyString => true
  | String c s' => p c && str_forall p s'
  end.

(** The bytes [%d] writes. *)
Definition is_num_char (c : ascii) : bool := is_digit c || Ascii.eqb c "-"%char.

(** The bytes a number never contains: the separators of the grammar. *)
Definition is_separator (c : ascii) : bool :=
  is_y_end c || is_pane_end c || Ascii.eqb c "x"%char.

(** A text that may follow a leaf when the parser reads its pane id. *)
Definition ends_field (s : string) : bool :=
  match s with
  | EmptyString => true
  | String c _ => is_pane_end c
  end.

(** The trees [ParseLayout] builds: numbers that fit an [int], leaves
    without children, split nodes with [PaneID = -1]. *)
Definition in_int (z : Z) : bool := (int_min <=? z) && (z <=? int_max).

Fixpoint parsed_form (node : LayoutNode) : bool :=
  match node with
  | mkLayoutNode w h x y p st cs =>
      in_int w && in_int h && in_int x && in_int y && in_int p &&
      match st with
      | SplitNone => match cs with [] => true | _ => false end
      | _ => (p =? -1) && forallb parsed_form cs
      end
  end.

(** The sum of a list of integers, without wrap-around. *)
Definition sumZ (l : list Z) : Z := fold_right Z.add 0 l.

(** A byte of [%x]: a digit or one of [a]..[f]. *)
Definition is_lower_hex (c : ascii) : bool :=
  is_digit c || ((97 <=? nat_of_ascii c)%nat && (nat_of_ascii c <=? 102)%nat).

(** The axis across [ax]. *)
Definition other_axis (ax : Axis) : Axis :=
  match ax with AxisWidth => AxisHeight | AxisHeight => AxisWidth end.

(** The children [cs] lie side by side along [ax] from [cur]: each starts
    where the cursor is, the cursor then moves one cell (the border) past
    its end, and after the last child it is one cell past [stop]. *)
Fixpoint tiled (ax : Axis) (cur : Z) (cs : list LayoutNode) (stop : Z) : bool :=
  match cs with
  | [] => cur =? stop + 1
  | c :: cs' => (pos_along ax c =? cur) && tiled ax (cur + size_along ax c + 1) cs' stop
  end.

(** The line [list-panes -F '#{pane_id}:#{pane_index}:#{pane_width}:#{pane_height}:#{pane_left}:#{pane_top}:#{pane_active}']
    prints for a pane, and the lines joined by newlines. *)
Definition list_panes_line (p : Pane.PaneInfo) : string :=
  (Pane.ID p ++ ":" ++ Itoa (Pane.Index p) ++ ":" ++ Itoa (Pane.Width p) ++ ":" ++
   Itoa (Pane.Height p) ++ ":" ++ Itoa (Pane.Left p) ++ ":" ++ Itoa (Pane.Top p) ++ ":" ++
   (if Pane.Active p then "1" else "0"))%string.

Fixpoint join_lines (lines : list string) : string :=
  match lines with
  | [] => EmptyString
  | [l] => l
  | l :: ls => (l ++ String "010"%char (join_lines ls))%string
  end.

(** Every number of the pane is an [int]. *)
Definition pane_in_int (p : Pane.PaneInfo) : bool :=
  forallb (fun z => (int_min <=? z) && (z <=? int_max))
    [Pane.Index p; Pane.Width p; Pane.Height p; Pane.Left p; Pane.Top p].

(** [c] does not occur in [s]. *)
Definition no_byte (c : ascii) (s : string) : bool := str_forall (fun d => negb (Ascii.eqb d c)) s.

(** The example layout of the specification and of the Go tests. *)
Definition ex_layout : string :=
  "b2d9,255x61,0,0{84x61,0,0[84x30,0,0,26,84x30,0,31,41],85x61,85,0,36,84x61,171,0,42}".

(** * Properties *)


(** ** C3: the example of the specification *)

(** C3: on the example layout, the root is a width split of widths
    [84; 85; 84]; after the zoom of pane 26 at 65%, child 0 has
    [(255 - 2) * 65 / 100 = 164] plus the rounding adjustment 1, children 1
    and 2 get [85 * 89 / 169] and [84 * 89 / 169] of the remaining 89
    cells, panes 26 and 41 have the width of their column, and the three
    widths plus 2 borders make 255. *)
Theorem C3_example_zoom :
  exists t,
    ParseLayout ex_layout = Ok t /\
    SplitTy t = SplitHorizontal /\
    map Width (Children t) = [84; 85; 84] /\
    let z := zoom_transform t 26 65 in
    let remaining := (255 - 2) - (255 - 2) * 65 / 100 in
    let w0 := (255 - 2) * 65 / 100 in
    let w1 := 85 * remaining / (85 + 84) in
    let w2 := 84 * remaining / (85 + 84) in
    map Width (Children z) = [w0 + ((255 - 2) - (w0 + w1 + w2)); w1; w2] /\
    (255 - 2) - (w0 + w1 + w2) = 1 /\
    (match Children z with
     | col :: _ =>
         SplitTy col = SplitVertical /\
         map PaneID (Children col) = [26; 41] /\
         map Width (Children col) = [Width col; Width col]
     | [] => False
     end) /\
    fold_right Z.add 0 (map Width (Children z)) + 2 = 255.
Proof.
  eexists. split; [vm_compute; reflexivity|].
  vm_compute. repeat split; reflexivity.
Qed.

(** ** C1: size conservation after the zoom *)

(** C1 (code defect): the layout below is a window with pane 1 on the left
    and, on the right, a column whose top row is split in panes 2 and 3.
    Size conservation holds at every node.  After the zoom of pane 1 at
    65%, the right column and its top row are 7 cells wide, but the row's
    children keep their widths 4 and 5: [4 + 5 + 1 <> 7]. *)
Theorem C1_nested_row_not_conserved :
  exists t,
    ParseLayout "0000,21x10,0,0{10x10,0,0,1,10x10,11,0[10x4,11,0{4x4,11,0,2,5x4,16,0,3},10x5,11,5,4]}" = Ok t /\
    conserved_everywhere t = true /\
    conserved_everywhere (zoom_transform t 1 65) = false /\
    BuildLayout (zoom_transform t 1 65) =
      "1ebd,21x10,0,0{13x10,0,0,1,7x10,14,0[7x4,11,0{4x4,11,0,2,5x4,16,0,3},7x5,11,5,4]}"%string.
Proof.
  eexists. split; [vm_compute; reflexivity|].
  vm_compute. repeat split; reflexivity.
Qed.

(** ** C7: the target's share at the first level *)

(** C7, counterexample: three children of widths 2, 1 and 97 (available
    100), pane 1 in child 0, [p = 40 >= 100 / 3]: the new widths are
    [41; 0; 59], so the target child is narrower than child 2. *)
Lemma C7_dominance_fails :
  exists t,
    ParseLayout "0000,102x5,0,0{2x5,0,0,1,1x5,3,0,2,97x5,5,0,3}" = Ok t /\
    find_index (fun c => containsPane c 1) (Children t) = Some O /\
    40 * Z.of_nat (List.length (Children t)) >= 100 /\
    map Width (Children (zoom_transform t 1 40)) = [41; 0; 59] /\
    Width (nth 0 (Children (zoom_transform t 1 40)) t) <
    Width (nth 2 (Children (zoom_transform t 1 40)) t).
Proof.
  eexists. split; [vm_compute; reflexivity|].
  vm_compute. repeat split; try reflexivity; discriminate.
Qed.

(** ** The target id -1 *)

(** The id -1 is no tmux pane id ([%N] with [N >= 0]); it is the
    [PaneID] the parser gives to split nodes and to leaves read without a
    pane id, so [containsPane] finds it in a split child and a zoom with
    target -1 resizes the root. *)
Lemma ApplyZoomToLayout_minus_one_target :
  exists t,
    ParseLayout "0000,5x3,0,0{1x3,0,0,1,3x3,2,0[3x1,2,0,2,3x1,2,2,3]}" = Ok t /\
    leaf_has_pane t (-1) = false /\
    ApplyZoomToLayout t (-1) 65 <> t /\
    map Width (Children (ApplyZoomToLayout t (-1) 65)) = [2; 2].
Proof.
  eexists. split; [vm_compute; reflexivity|].
  vm_compute. repeat split; try reflexivity; discriminate.
Qed.

(** ** C6: what [ParseLayout] rejects *)

(** C6, counterexample: a width split whose [{] is never closed is
    accepted: the children list ends with the text. So is a text after the
    root node, here a [}] with nothing to close and a bad number. *)
Lemma C6_unclosed_bracket_accepted :
  ParseLayout "abcd,10x10,0,0{5x10,0,0,1" =
    Ok (mkLayoutNode 10 10 0 0 (-1) SplitHorizontal
          [mkLayoutNode 5 10 0 0 1 SplitNone []]) /\
  ParseLayout "abcd,10x10,0,0,1}zxq" = Ok (mkLayoutNode 10 10 0 0 1 SplitNone []).
Proof. split; vm_compute; reflexivity. Qed.

(** ** The zoom keeps the shape of the tree (C8) *)

Lemma list_all_Forall {A} (P : A -> Prop) (l : list A) :
  list_all@{Prop ; _ _} A P l -> Forall P l.
Proof. induction 1; constructor; auto. Qed.

Lemma map_shape_ext (f : LayoutNode -> LayoutNode) (l : list LayoutNode) :
  Forall (fun c => shape (f c) = shape c) l -> map shape (map f l) = map shape l.
Proof.
  induction 1 as [|a l Ha _ IH]; simpl; [reflexivity|]. now rewrite Ha, IH.
Qed.

Lemma shape_set_size ax n v : shape (set_size ax n v) = shape n.
Proof. destruct n, ax; reflexivity. Qed.

Lemma shape_set_pos ax n v : shape (set_pos ax n v) = shape n.
Proof. destruct n, ax; reflexivity. Qed.

Lemma shape_update_child_size ax n v : shape (update_child_size ax n v) = shape n.
Proof.
  revert v. induction n as [w h x y p st cs IH] using LayoutNode_ind; intros v.
  simpl. destruct ax; simpl;
  (destruct (SplitType_eqb st _); [|reflexivity]).
  all: f_equal; apply map_shape_ext;
    apply list_all_Forall in IH; eapply Forall_impl; [|exact IH]; simpl; auto.
Qed.

Lemma shape_place ax cur cs sizes :
  map shape (place ax cur cs sizes) = map shape cs.
Proof.
  revert cur sizes. induction cs as [|c cs IH]; intros cur [|s ss]; simpl; auto.
  now rewrite shape_update_child_size, shape_set_pos, shape_set_size, IH.
Qed.

Lemma shape_apply_axis_zoom ax n i p : shape (apply_axis_zoom ax n i p) = shape n.
Proof.
  destruct n as [w h x y pid st cs]. unfold apply_axis_zoom.
  destruct (_ <=? _)%nat; [reflexivity|]. simpl. now rewrite shape_place.
Qed.

Lemma shape_zoom_by_split n i p : shape (zoom_by_split n i p) = shape n.
Proof.
  unfold zoom_by_split. destruct (SplitTy n); try apply shape_apply_axis_zoom; reflexivity.
Qed.

Lemma shape_copyLayoutNode n : shape (copyLayoutNode n) = shape n.
Proof.
  induction n as [w h x y p st cs IH] using LayoutNode_ind; simpl. f_equal.
  apply map_shape_ext. apply list_all_Forall in IH. exact IH.
Qed.

Lemma shape_ApplyZoomToLayout n id p : shape (ApplyZoomToLayout n id p) = shape n.
Proof.
  unfold ApplyZoomToLayout.
  destruct (find_index _ _); [rewrite shape_zoom_by_split|]; apply shape_copyLayoutNode.
Qed.

Lemma shape_update_first (f : LayoutNode -> bool) g l :
  (forall a, shape (g a) = shape a) -> map shape (update_first f g l) = map shape l.
Proof.
  intros Hg. induction l as [|a l IH]; simpl; [reflexivity|].
  destruct (f a); simpl; now rewrite ?Hg, ?IH.
Qed.

Lemma shape_nested_zoom fuel n id p : shape (nested_zoom fuel n id p) = shape n.
Proof.
  revert n. induction fuel as [|f IH]; intros [w h x y pid st cs]; [reflexivity|].
  simpl. f_equal. apply shape_update_first. intros child.
  destruct (1 <? _)%nat; [|reflexivity].
  destruct (find_index _ _); [|reflexivity].
  now rewrite IH, shape_zoom_by_split.
Qed.

Lemma shape_zoom_transform t id p : shape (zoom_transform t id p) = shape t.
Proof.
  unfold zoom_transform, applyNestedZoom.
  now rewrite shape_nested_zoom, shape_ApplyZoomToLayout.
Qed.

Lemma fold_count_ext (cs ds : list LayoutNode) acc :
  Forall2 (fun c d => countPanes c = countPanes d) cs ds ->
  fold_left (fun count c => add64 count (countPanes c)) cs acc =
  fold_left (fun count c => add64 count (countPanes c)) ds acc.
Proof.
  intros H. revert acc. induction H as [|c d cs ds Hcd _ IH]; intros acc; simpl; auto.
  now rewrite Hcd, IH.
Qed.

Lemma countPanes_shape a : forall b, shape a = shape b -> countPanes a = countPanes b.
Proof.
  induction a as [w h x y p st cs IH] using LayoutNode_ind.
  intros [w' h' x' y' p' st' cs'] Hs. simpl in Hs. injection Hs as -> -> Hcs.
  apply list_all_Forall in IH.
  assert (Forall2 (fun c d => countPanes c = countPanes d) cs cs') as H2.
  { revert cs' Hcs. induction IH as [|c cs Hc _ IHl]; intros [|c' cs'] Hcs;
      try discriminate; constructor.
    - apply Hc. now injection Hcs.
    - apply IHl. now injection Hcs. }
  destruct st'; simpl; auto using fold_count_ext.
Qed.

(** C8: the zoom transform keeps the number of panes, for every tree,
    target (present or not) and percent. *)
Theorem C8_leaf_count_invariant (t : LayoutNode) (activePaneID zoomPercent : Z) :
  countPanes (zoom_transform t activePaneID zoomPercent) = countPanes t.
Proof. apply countPanes_shape. apply shape_zoom_transform. Qed.

(** ** C5: the checksum *)

Lemma rot_parts_disjoint a :
  0 <= a < 2 ^ 16 -> Z.land (Z.shiftr a 1) (Z.shiftl (Z.land a 1) 15) = 0.
Proof.
  intros Ha. apply Z.bits_inj'. intros i Hi.
  rewrite Z.land_spec, Z.bits_0, Z.shiftr_spec, Z.shiftl_spec by lia.
  rewrite Z.land_spec.
  destruct (Z.eq_dec i 15) as [->|Hne].
  - assert (Z.testbit a (15 + 1) = false) as ->; [|reflexivity].
    destruct (Z.eq_dec a 0) as [->|Ha0]; [reflexivity|].
    apply Z.bits_above_log2; [lia|].
    apply Z.log2_lt_pow2; lia.
  - destruct (Z.lt_ge_cases i 15).
    + rewrite (Z.testbit_neg_r 1) by lia. now rewrite !andb_false_r.
    + assert (Z.testbit 1 (i - 15) = false) as ->; [|now rewrite !andb_false_r].
      apply Z.bits_above_log2; simpl; lia.
Qed.

(** [spec_rotr16] is the rotation right by one bit of a 16-bit value. *)
Lemma spec_rotr16_bits a i :
  0 <= a < 2 ^ 16 -> 0 <= i < 16 ->
  Z.testbit (spec_rotr16 a) i = Z.testbit a ((i + 1) mod 16).
Proof.
  intros Ha Hi. unfold spec_rotr16.
  rewrite Z.lor_spec, Z.shiftr_spec, Z.shiftl_spec, Z.land_spec by lia.
  destruct (Z.eq_dec i 15) as [->|Hne].
  - replace ((15 + 1) mod 16) with 0 by reflexivity.
    assert (Z.testbit a (15 + 1) = false) as ->.
    { destruct (Z.eq_dec a 0) as [->|Ha0]; [reflexivity|].
      apply Z.bits_above_log2; [lia|]. apply Z.log2_lt_pow2; lia. }
    simpl. now rewrite andb_true_r.
  - rewrite Z.mod_small by lia.
    destruct (Z.lt_ge_cases i 15); [|lia].
    rewrite (Z.testbit_neg_r 1) by lia. now rewrite andb_false_r, orb_false_r.
Qed.

Lemma csum_step_spec acc c :
  0 <= acc < 2 ^ 16 ->
  csum_step acc c = (spec_rotr16 acc + Z.of_nat (nat_of_ascii c)) mod 2 ^ 16.
Proof.
  intros Ha. unfold csum_step, spec_rotr16.
  rewrite Zplus_mod_idemp_l.
  rewrite <- Z.lxor_lor by now apply rot_parts_disjoint.
  rewrite <- Z.add_nocarry_lxor by now apply rot_parts_disjoint.
  reflexivity.
Qed.

Lemma csum_loop_spec s acc :
  0 <= acc < 2 ^ 16 ->
  csum_loop acc s =
  fold_left (fun acc c => (spec_rotr16 acc + Z.of_nat (nat_of_ascii c)) mod 2 ^ 16)
    (list_ascii_of_string s) acc /\ 0 <= csum_loop acc s < 2 ^ 16.
Proof.
  revert acc. induction s as [|c s IH]; intros acc Ha; simpl; [auto|].
  rewrite csum_step_spec by exact Ha. apply IH.
  apply Z.mod_pos_bound. lia.
Qed.

Lemma hex_char_spec d : 0 <= d < 16 -> hex_char d = spec_hex_digit d.
Proof.
  intros Hd.
  assert (Hall : forallb (fun k => Ascii.eqb (hex_char (Z.of_nat k)) (spec_hex_digit (Z.of_nat k)))
                   (seq 0 16) = true) by (vm_compute; reflexivity).
  rewrite forallb_forall in Hall.
  specialize (Hall (Z.to_nat d)). rewrite Z2Nat.id in Hall by lia.
  apply Ascii.eqb_eq, Hall, in_seq. lia.
Qed.

Lemma hex_digits_last f n acc :
  0 <= n < 16 -> hex_digits (S f) n acc = String (hex_char n) acc.
Proof.
  intros Hn. simpl. rewrite Z.mod_small by lia.
  destruct (Z.ltb_spec n 16); [reflexivity|lia].
Qed.

Lemma hex_digits_more f n acc :
  16 <= n -> hex_digits (S f) n acc = hex_digits f (n / 16) (String (hex_char (n mod 16)) acc).
Proof.
  intros Hn. simpl. destruct (Z.ltb_spec n 16); [lia|reflexivity].
Qed.

Lemma format_04x_small n : 0 <= n < 2 ^ 16 -> format_04x n = spec_hex4 n.
Proof.
  intros Hn. unfold format_04x, spec_hex4.
  assert (H16 : forall k, 0 <= k mod 16 < 16) by (intros; apply Z.mod_pos_bound; lia).
  assert (Hd1 : n / 16 / 16 = n / 256) by (rewrite Z.div_div by lia; reflexivity).
  assert (Hd2 : n / 256 / 16 = n / 4096) by (rewrite Z.div_div by lia; reflexivity).
  assert (Hzero : spec_hex_digit 0 = "0"%char) by reflexivity.
  destruct (Z.lt_ge_cases n 16).
  - rewrite hex_digits_last by lia. simpl.
    rewrite !Z.div_small, Z.mod_0_l, Hzero, Z.mod_small, hex_char_spec by lia.
    reflexivity.
  - rewrite hex_digits_more by lia.
    destruct (Z.lt_ge_cases n 256).
    + rewrite hex_digits_last by (split; [apply Z.div_pos|apply Z.div_lt_upper_bound]; lia).
      simpl.
      rewrite (Z.div_small n 4096), (Z.div_small n 256), Z.mod_0_l, Hzero by lia.
      rewrite (Z.mod_small (n / 16)) by (split; [apply Z.div_pos|apply Z.div_lt_upper_bound]; lia).
      rewrite !hex_char_spec by first [apply H16 | split; [apply Z.div_pos|apply Z.div_lt_upper_bound]; lia].
      reflexivity.
    + rewrite hex_digits_more by (apply Z.div_le_lower_bound; lia).
      rewrite Hd1.
      destruct (Z.lt_ge_cases n 4096).
      * rewrite hex_digits_last by (split; [apply Z.div_pos|apply Z.div_lt_upper_bound]; lia).
        simpl.
        rewrite (Z.div_small n 4096), Z.mod_0_l, Hzero by lia.
        rewrite (Z.mod_small (n / 256)) by (split; [apply Z.div_pos|apply Z.div_lt_upper_bound]; lia).
        rewrite !hex_char_spec by first [apply H16 | split; [apply Z.div_pos|apply Z.div_lt_upper_bound]; lia].
        reflexivity.
      * rewrite hex_digits_more by (apply Z.div_le_lower_bound; lia).
        rewrite Hd2.
        rewrite hex_digits_last by (split; [apply Z.div_pos|apply Z.div_lt_upper_bound]; lia).
        simpl.
        rewrite (Z.mod_small (n / 4096)) by (split; [apply Z.div_pos|apply Z.div_lt_upper_bound]; lia).
        rewrite !hex_char_spec by first [apply H16 | split; [apply Z.div_pos|apply Z.div_lt_upper_bound]; lia].
        reflexivity.
Qed.

(** C5: [calculateChecksum] is the rotate-right-and-add checksum over the
    bytes of its argument, as a 16-bit value printed as four lowercase hex
    digits, and [BuildLayout] writes it, then a comma, then the body. *)
Theorem C5_checksum_spec (s : string) (t : LayoutNode) :
  checksum_value s = spec_checksum s /\
  0 <= checksum_value s < 2 ^ 16 /\
  calculateChecksum s = spec_hex4 (spec_checksum s) /\
  BuildLayout t =
    (spec_hex4 (spec_checksum (buildNodeString t)) ++ "," ++ buildNodeString t)%string.
Proof.
  assert (H : forall s, checksum_value s = spec_checksum s /\ 0 <= checksum_value s < 2 ^ 16).
  { intros s'. unfold checksum_value, spec_checksum.
    destruct (csum_loop_spec s' 0) as [H1 H2]; [lia|]. auto. }
  assert (Hc : forall s, calculateChecksum s = spec_hex4 (spec_checksum s)).
  { intros s'. unfold calculateChecksum. destruct (H s') as [<- ?].
    now apply format_04x_small. }
  destruct (H s) as [H1 H2]. repeat split; try lia; auto.
  unfold BuildLayout. now rewrite Hc.
Qed.

(** ** Parser lemmas: consumption and fuel (C10) *)

Lemma str_length_append (a b : string) :
  String.length (a ++ b) = (String.length a + String.length b)%nat.
Proof. induction a as [|c a IH]; simpl; auto. Qed.

Lemma cut_at_spec c s pre post :
  cut_at c s = Some (pre, post) ->
  s = (pre ++ String c post)%string /\ (String.length post < String.length s)%nat.
Proof.
  revert pre. induction s as [|d s IH]; intros pre H; simpl in H; [discriminate|].
  destruct (Ascii.eqb_spec d c) as [->|Hne].
  - injection H as <- <-. simpl. split; [reflexivity|lia].
  - destruct (cut_at c s) as [[pre' post']|] eqn:E; [|discriminate].
    injection H as <- <-. destruct (IH pre' eq_refl) as [-> Hl].
    simpl. split; [reflexivity|]. rewrite str_length_append in *. simpl in *. lia.
Qed.

Lemma scan_until_spec p s pre post :
  scan_until p s = (pre, post) ->
  s = (pre ++ post)%string /\ (String.length post <= String.length s)%nat.
Proof.
  revert pre. induction s as [|d s IH]; intros pre H; simpl in H.
  - injection H as <- <-. simpl. auto.
  - destruct (p d).
    + injection H as <- <-. simpl. auto.
    + destruct (scan_until p s) as [pre' post'] eqn:E.
      injection H as <- <-. destruct (IH pre' eq_refl) as [-> Hl].
      simpl. split; [reflexivity|]. rewrite str_length_append in *. simpl in *. lia.
Qed.

Lemma skip_comma_len s : (String.length (skip_comma s) <= String.length s)%nat.
Proof. destruct s as [|c s]; simpl; [lia|]. destruct (Ascii.eqb c _); simpl; lia. Qed.

(** Destruct the scrutinees of the matches in hypothesis [H]. *)
Ltac break_in H :=
  repeat match type of H with
  | context [match ?e with _ => _ end] =>
      let E := fresh "E" in destruct e eqn:E
  end.

Lemma parse_consumes fuel :
  (forall s t r, parseNode fuel s = Ok (t, r) ->
     (String.length r < String.length s)%nat) /\
  (forall s e cs r, parseChildren fuel s e = Ok (cs, r) ->
     (String.length r <= String.length s)%nat).
Proof.
  induction fuel as [|f [IHn IHc]]; split; intros * H; simpl in H; try discriminate.
  - break_in H; try discriminate;
    repeat match goal with
    | E : cut_at _ _ = Some _ |- _ => apply cut_at_spec in E as [? ?]
    | E : scan_until _ _ = _ |- _ => apply scan_until_spec in E as [? ?]
    | E : parseChildren _ _ _ = Ok _ |- _ => apply IHc in E
    end;
    injection H as <- <-; subst; simpl in *; lia.
  - break_in H; try discriminate; injection H as <- <-; simpl; try lia.
    match goal with
    | E : parseNode _ _ = Ok _ |- _ => apply IHn in E
    end.
    match goal with
    | E : parseChildren _ _ _ = Ok _ |- _ => apply IHc in E
    end.
    match goal with
    | E : (_ <= String.length (skip_comma ?x))%nat |- _ => pose proof (skip_comma_len x)
    end.
    subst. simpl in *. lia.
Qed.

Ltac length_facts :=
  repeat match goal with
  | E : cut_at _ _ = Some _ |- _ => apply cut_at_spec in E as [? ?]
  | E : scan_until _ _ = _ |- _ => apply scan_until_spec in E as [? ?]
  | E : parseNode _ _ = Ok _ |- _ => apply (proj1 (parse_consumes _)) in E
  end;
  try match goal with
  | |- context [String.length (skip_comma ?x)] => pose proof (skip_comma_len x)
  end.

Lemma parse_fuel_enough fuel :
  (forall s, (2 * String.length s < fuel)%nat -> parseNode fuel s <> OutOfFuel) /\
  (forall s e, (2 * String.length s + 1 < fuel)%nat -> parseChildren fuel s e <> OutOfFuel).
Proof.
  induction fuel as [|f [IHn IHc]]; split; intros * Hf Habs; [lia|lia| |];
    simpl in Habs; break_in Habs; try discriminate.
  all: first
    [ match goal with E : parseChildren _ ?s ?e = OutOfFuel |- _ => refine (IHc s e _ E) end
    | match goal with E : parseNode _ ?s = OutOfFuel |- _ => refine (IHn s _ E) end ];
    length_facts; subst; simpl in *; lia.
Qed.

(** C10: [ParseLayout] is total: the fuel it gives to [parseNode] and to
    the loop of [parseChildren] is never exhausted, and every successful
    [parseNode] consumes at least one character, so every iteration of
    the loop of [parseChildren] either consumes input or stops with an
    error. *)
Theorem C10_parse_total :
  (forall layout, ParseLayout layout <> OutOfFuel) /\
  (forall fuel s t rest, parseNode fuel s = Ok (t, rest) ->
     (String.length rest < String.length s)%nat).
Proof.
  split.
  - intros layout. unfold ParseLayout.
    destruct (cut_at _ layout) as [[pre rest]|]; [|discriminate].
    destruct (parseNode (parse_fuel rest) rest) as [[t r]| |] eqn:E;
      try discriminate.
    exfalso. revert E. apply (proj1 (parse_fuel_enough _)).
    unfold parse_fuel. lia.
  - intros fuel. apply (proj1 (parse_consumes fuel)).
Qed.

(** ** Numbers: [Atoi] reads back what [%d] writes *)

Lemma str_app_assoc (a b c : string) : ((a ++ b) ++ c = a ++ (b ++ c))%string.
Proof. induction a as [|d a IH]; simpl; [reflexivity|now rewrite IH]. Qed.

Lemma str_app_nil (a : string) : (a ++ "")%string = a.
Proof. induction a as [|d a IH]; simpl; [reflexivity|now rewrite IH]. Qed.

Lemma str_forall_app p a b :
  str_forall p (a ++ b) = str_forall p a && str_forall p b.
Proof. induction a as [|c a IH]; simpl; [reflexivity|now rewrite IH, andb_assoc]. Qed.

Lemma str_forall_impl (p q : ascii -> bool) s :
  (forall c, p c = true -> q c = true) -> str_forall p s = true -> str_forall q s = true.
Proof.
  intros Hpq. induction s as [|c s IH]; simpl; [auto|].
  intros [Hc Hs]%andb_prop. now rewrite Hpq, IH.
Qed.

Lemma num_char_not_separator c : is_num_char c = true -> is_separator c = false.
Proof. destruct c as [[] [] [] [] [] [] [] []]; vm_compute; congruence. Qed.

Lemma digit_char_spec d :
  0 <= d < 10 -> is_digit (digit_char d) = true /\ digit_value (digit_char d) = d.
Proof.
  intros Hd.
  assert (d = 0 \/ d = 1 \/ d = 2 \/ d = 3 \/ d = 4 \/ d = 5 \/ d = 6 \/ d = 7 \/
          d = 8 \/ d = 9) as Hcases by lia.
  repeat destruct Hcases as [->|Hcases]; try (subst; split; reflexivity).
Qed.

Lemma digits_of_spec f : forall n acc,
  0 <= n < 10 ^ Z.of_nat (S f) ->
  exists ds,
    digits_of (S f) n acc = (ds ++ acc)%string /\ ds <> EmptyString /\
    str_forall is_digit ds = true /\
    forall a rest,
      digits_value a (ds ++ rest) = digits_value (a * 10 ^ Z.of_nat (String.length ds) + n) rest.
Proof.
  induction f as [|f IH]; intros n acc Hn.
  - change (10 ^ Z.of_nat 1) with 10 in Hn.
    destruct (digit_char_spec n Hn) as [Hd Hv].
    exists (String (digit_char n) EmptyString). simpl.
    rewrite Z.mod_small by lia. destruct (Z.ltb_spec n 10); [|lia].
    split; [reflexivity|]. split; [discriminate|]. split; [rewrite Hd; reflexivity|].
    intros a rest. rewrite Hd, Hv. f_equal; lia.
  - destruct (Z.lt_ge_cases n 10) as [Hlt|Hge].
    + destruct (digit_char_spec n (conj (proj1 Hn) Hlt)) as [Hd Hv].
      exists (String (digit_char n) EmptyString).
      change (digits_of (S (S f)) n acc) with
        (let acc' := String (digit_char (n mod 10)) acc in
         if n <? 10 then acc' else digits_of (S f) (n / 10) acc').
      cbv zeta. rewrite Z.mod_small by lia. destruct (Z.ltb_spec n 10); [|lia].
      split; [reflexivity|]. split; [discriminate|]. split; [simpl; rewrite Hd; reflexivity|].
      intros a rest. simpl. rewrite Hd, Hv. f_equal; lia.
    + assert (Hm : 0 <= n mod 10 < 10) by (apply Z.mod_pos_bound; lia).
      destruct (digit_char_spec _ Hm) as [Hd Hv].
      destruct (IH (n / 10) (String (digit_char (n mod 10)) acc)) as (ds & Heq & Hne & Hall & Hval).
      { split; [apply Z.div_pos; lia|].
        apply Z.div_lt_upper_bound; [lia|].
        rewrite Nat2Z.inj_succ, Z.pow_succ_r in Hn by lia. lia. }
      exists (ds ++ String (digit_char (n mod 10)) EmptyString)%string.
      change (digits_of (S (S f)) n acc) with
        (let acc' := String (digit_char (n mod 10)) acc in
         if n <? 10 then acc' else digits_of (S f) (n / 10) acc').
      cbv zeta. destruct (Z.ltb_spec n 10); [lia|].
      rewrite Heq, str_app_assoc. simpl.
      split; [reflexivity|]. split; [|split].
      * destruct ds; [congruence|discriminate].
      * rewrite str_forall_app, Hall. simpl. now rewrite Hd.
      * intros a rest. rewrite str_app_assoc, Hval. simpl. rewrite Hd, Hv.
        rewrite str_length_append. simpl. f_equal.
        rewrite Nat2Z.inj_add, Z.pow_add_r by lia.
        change (10 ^ Z.of_nat 1) with 10.
        pose proof (Z.div_mod n 10 ltac:(lia)) as Hdm.
        remember (n / 10) as q. remember (n mod 10) as r.
        rewrite Hdm. ring.
Qed.

Lemma digit_not_sign c :
  is_digit c = true -> Ascii.eqb c "-"%char = false /\ Ascii.eqb c "+"%char = false.
Proof. destruct c as [[] [] [] [] [] [] [] []]; vm_compute; auto; discriminate. Qed.

Lemma Itoa_spec z :
  int_min <= z <= int_max ->
  Atoi (Itoa z) = Some z /\ str_forall is_num_char (Itoa z) = true /\ Itoa z <> EmptyString.
Proof.
  intros Hz. unfold Itoa, int_min, int_max in *.
  assert (Hbig : 2 ^ 63 < 10 ^ Z.of_nat 20) by reflexivity.
  assert (Hnum : forall ds, str_forall is_digit ds = true -> str_forall is_num_char ds = true).
  { intros ds. apply str_forall_impl. unfold is_num_char. intros c ->. reflexivity. }
  destruct (Z.ltb_spec z 0).
  - destruct (digits_of_spec 19 (- z) EmptyString) as (ds & Heq & Hne & Hall & Hval); [lia|].
    rewrite Heq, str_app_nil. specialize (Hval 0 EmptyString). rewrite str_app_nil in Hval.
    split; [|split; [simpl; now rewrite Hnum|discriminate]].
    unfold Atoi. simpl.
    destruct ds as [|c ds']; [congruence|].
    rewrite Z.mul_0_l, Z.add_0_l in Hval. simpl in Hval |- *. rewrite Hval, Z.opp_involutive.
    unfold int_min, int_max.
    destruct (Z.leb_spec (- 2 ^ 63) z); [|lia]. destruct (Z.leb_spec z (2 ^ 63 - 1)); [|lia].
    reflexivity.
  - destruct (digits_of_spec 19 z EmptyString) as (ds & Heq & Hne & Hall & Hval); [lia|].
    rewrite Heq, str_app_nil. specialize (Hval 0 EmptyString). rewrite str_app_nil in Hval.
    split; [|split; [now apply Hnum|exact Hne]].
    unfold Atoi.
    destruct ds as [|c ds']; [congruence|].
    simpl in Hall. apply andb_prop in Hall as [Hc _].
    destruct (digit_not_sign c Hc) as [-> ->].
    rewrite Z.mul_0_l, Z.add_0_l in Hval. simpl in Hval |- *. rewrite Hval.
    unfold int_min, int_max.
    destruct (Z.leb_spec (- 2 ^ 63) z); [|lia]. destruct (Z.leb_spec z (2 ^ 63 - 1)); [|lia].
    reflexivity.
Qed.

(** ** Strings: the separators are found where the printer put them *)

Lemma cut_at_app c a b :
  str_forall (fun d => negb (Ascii.eqb d c)) a = true ->
  cut_at c (a ++ String c b) = Some (a, b).
Proof.
  induction a as [|d a IH]; simpl.
  - intros _. now rewrite Ascii.eqb_refl.
  - intros [Hd Ha]%andb_prop. apply negb_true_iff in Hd. rewrite Hd, IH by exact Ha.
    reflexivity.
Qed.

Lemma scan_until_app (p : ascii -> bool) a b :
  str_forall (fun d => negb (p d)) a = true ->
  match b with EmptyString => True | String d _ => p d = true end ->
  scan_until p (a ++ b) = (a, b).
Proof.
  intros Ha Hb. induction a as [|d a IH]; simpl in *.
  - destruct b as [|d b]; [reflexivity|]. simpl. now rewrite Hb.
  - apply andb_prop in Ha as [Hd Ha]. apply negb_true_iff in Hd. rewrite Hd, IH by exact Ha.
    reflexivity.
Qed.

(** A printed number contains no separator. *)
Lemma Itoa_no_sep z (q : ascii -> bool) :
  int_min <= z <= int_max ->
  (forall c, q c = true -> is_separator c = true) ->
  str_forall (fun d => negb (q d)) (Itoa z) = true.
Proof.
  intros Hz Hq. destruct (Itoa_spec z Hz) as (_ & Hall & _).
  revert Hall. apply str_forall_impl. intros c Hc.
  apply negb_true_iff. destruct (q c) eqn:E; [|reflexivity].
  apply Hq in E. now rewrite num_char_not_separator in E.
Qed.

(** ** The printer and the parser (C2) *)

Lemma Atoi_in_int s v : Atoi s = Some v -> in_int v = true.
Proof.
  unfold Atoi, in_int. intros H.
  destruct (match s with String c r => _ | EmptyString => _ end) as [neg ds].
  destruct ds as [|c ds]; [discriminate|].
  destruct (digits_value 0 (String c ds)); [|discriminate].
  destruct (_ && _) eqn:E; [|discriminate]. injection H as <-. exact E.
Qed.

Lemma in_int_range z : in_int z = true -> int_min <= z <= int_max.
Proof. unfold in_int. intros [H1 H2]%andb_prop. apply Z.leb_le in H1, H2. lia. Qed.

Lemma Itoa_head z :
  int_min <= z <= int_max -> exists c s, Itoa z = String c s /\ is_num_char c = true.
Proof.
  intros Hz. destruct (Itoa_spec z Hz) as (_ & Hall & Hne).
  destruct (Itoa z) as [|c s]; [congruence|]. simpl in Hall.
  apply andb_prop in Hall as [Hc _]. eauto.
Qed.

Lemma parsed_form_node w h x y p st cs :
  parsed_form (mkLayoutNode w h x y p st cs) = true ->
  int_min <= w <= int_max /\ int_min <= h <= int_max /\ int_min <= x <= int_max /\
  int_min <= y <= int_max /\ int_min <= p <= int_max /\
  match st with
  | SplitNone => cs = []
  | _ => p = -1 /\ forallb parsed_form cs = true
  end.
Proof.
  cbn [parsed_form]. intros H.
  apply andb_prop in H as [H Hm]. apply andb_prop in H as [H Hp].
  apply andb_prop in H as [H Hy]. apply andb_prop in H as [H Hx].
  apply andb_prop in H as [Hw Hh].
  repeat split; try (apply in_int_range; assumption); try apply in_int_range; try assumption.
  destruct st; [destruct cs; [reflexivity|discriminate]| |];
    apply andb_prop in Hm as [Hp1 Hc]; (split; [now apply Z.eqb_eq|exact Hc]).
Qed.

Lemma build_head t :
  parsed_form t = true -> exists c s, buildNodeString t = String c s /\ is_num_char c = true.
Proof.
  destruct t as [w h x y p st cs]. intros H.
  apply parsed_form_node in H as (Hw & _).
  destruct (Itoa_head w Hw) as (c & s & E & Hc). cbn [buildNodeString].
  rewrite E. destruct st; simpl; eauto.
Qed.

Lemma Itoa_no_char z (c : ascii) :
  int_min <= z <= int_max -> is_separator c = true ->
  str_forall (fun d => negb (Ascii.eqb d c)) (Itoa z) = true.
Proof.
  intros Hz Hc. apply Itoa_no_sep; [exact Hz|].
  intros d Hd. apply Ascii.eqb_eq in Hd. now subst.
Qed.

Lemma concat_build_app (c : LayoutNode) (cs : list LayoutNode) (e : ascii) (rest : string) :
  (String.concat "," (map buildNodeString (c :: cs)) ++ String e rest)%string =
  (buildNodeString c ++
     match cs with
     | [] => String e rest
     | _ => String "," (String.concat "," (map buildNodeString cs) ++ String e rest)
     end)%string.
Proof. destruct cs; simpl; [reflexivity|]. now rewrite !str_app_assoc. Qed.

Lemma build_parse_children (cs : list LayoutNode) :
  Forall (fun t => forall f rest, parsed_form t = true -> ends_field rest = true ->
            (2 * String.length (buildNodeString t ++ rest) < f)%nat ->
            parseNode f (buildNodeString t ++ rest) = Ok (t, rest)) cs ->
  forall f e rest,
  (e = "}"%char \/ e = "]"%char) ->
  forallb parsed_form cs = true ->
  (2 * String.length (String.concat "," (map buildNodeString cs) ++ String e rest) + 1 < f)%nat ->
  parseChildren f (String.concat "," (map buildNodeString cs) ++ String e rest) e = Ok (cs, rest).
Proof.
  induction 1 as [|c cs Hc Hcs IH]; intros f e rest He Hform Hf.
  - destruct f as [|f]; [lia|]. simpl. now rewrite Ascii.eqb_refl.
  - simpl in Hform. apply andb_prop in Hform as [Hfc Hfcs].
    rewrite concat_build_app in *.
    destruct (build_head c Hfc) as (ch & s & Hb & Hch).
    destruct f as [|f]; [lia|].
    rewrite str_length_append in Hf.
    assert (Hne : Ascii.eqb ch e = false).
    { destruct (Ascii.eqb_spec ch e); [|reflexivity]. subst.
      destruct He as [-> | ->]; discriminate. }
    cbn [parseChildren].
    match goal with |- context [match (buildNodeString c ++ ?T)%string with _ => _ end] =>
      replace (buildNodeString c ++ T)%string with (String ch (s ++ T)) at 1
        by now rewrite Hb end.
    cbv iota beta. rewrite Hne.
    rewrite Hc; [| exact Hfc | | rewrite str_length_append; lia].
    2: { destruct cs; simpl; [|reflexivity]. destruct He as [-> | ->]; reflexivity. }
    destruct cs as [|c' cs'].
    + cbv iota beta. assert (Hsk : skip_comma (String e rest) = String e rest).
      { destruct He as [-> | ->]; reflexivity. }
      rewrite Hsk. destruct f as [|f]; [rewrite Hb in Hf; simpl in Hf; lia|].
      simpl. now rewrite Ascii.eqb_refl.
    + cbv iota beta. cbn [skip_comma]. simpl (Ascii.eqb "," ",").
      cbv iota beta. rewrite IH; [reflexivity | exact He | exact Hfcs |].
      set (X := (String.concat "," (map buildNodeString (c' :: cs')) ++ String e rest)%string) in *.
      rewrite Hb in Hf. cbn [String.length String.append] in Hf |- *. lia.
Qed.

Lemma build_parse (t : LayoutNode) : forall f rest,
  parsed_form t = true -> ends_field rest = true ->
  (2 * String.length (buildNodeString t ++ rest) < f)%nat ->
  parseNode f (buildNodeString t ++ rest) = Ok (t, rest).
Proof.
  induction t as [w h x y p st cs IH] using LayoutNode_ind.
  intros f rest Hform Hend Hf.
  pose proof Hform as (Hw & Hh & Hx & Hy & Hp & Hst)%parsed_form_node.
  destruct f as [|f]; [lia|].
  destruct st; cbn -[Itoa Atoi cut_at scan_until];
    repeat progress (rewrite ?str_app_assoc; cbn [String.append]);
    rewrite cut_at_app by (apply Itoa_no_char; [assumption|reflexivity]);
    rewrite (proj1 (Itoa_spec w Hw));
    rewrite cut_at_app by (apply Itoa_no_char; [assumption|reflexivity]);
    rewrite (proj1 (Itoa_spec h Hh));
    rewrite cut_at_app by (apply Itoa_no_char; [assumption|reflexivity]);
    rewrite (proj1 (Itoa_spec x Hx));
    (rewrite scan_until_app;
      [| apply Itoa_no_sep; [assumption|]; intros c Hc; unfold is_separator; now rewrite Hc
       | reflexivity]);
    rewrite (proj1 (Itoa_spec y Hy)); cbn -[Itoa Atoi cut_at scan_until].
  - subst cs.
    rewrite scan_until_app;
      [| apply Itoa_no_sep; [assumption|]; intros c Hc; unfold is_separator; now rewrite Hc, orb_true_r
       | destruct rest; [exact I|exact Hend]].
    now rewrite (proj1 (Itoa_spec p Hp)).
  - destruct Hst as [-> Hcs].
    rewrite build_parse_children; [reflexivity | now apply list_all_Forall | now left | exact Hcs |].
    cbn [buildNodeString] in Hf.
    set (C := String.concat "," (map buildNodeString cs)) in *.
    repeat progress (rewrite ?str_length_append in Hf; cbn [String.length String.append] in Hf).
    rewrite str_length_append; cbn [String.length]. lia.
  - destruct Hst as [-> Hcs].
    rewrite build_parse_children; [reflexivity | now apply list_all_Forall | now right | exact Hcs |].
    cbn [buildNodeString] in Hf.
    set (C := String.concat "," (map buildNodeString cs)) in *.
    repeat progress (rewrite ?str_length_append in Hf; cbn [String.length String.append] in Hf).
    rewrite str_length_append; cbn [String.length]. lia.
Qed.

Lemma parse_form fuel :
  (forall s t r, parseNode fuel s = Ok (t, r) -> parsed_form t = true) /\
  (forall s e cs r, parseChildren fuel s e = Ok (cs, r) -> forallb parsed_form cs = true).
Proof.
  induction fuel as [|f [IHn IHc]]; split; intros * H; simpl in H; try discriminate.
  - break_in H; try discriminate; injection H as <- <-; cbn [parsed_form];
    repeat match goal with
    | E : Atoi _ = Some ?v |- context [in_int ?v] => rewrite (Atoi_in_int _ _ E)
    | E : parseChildren _ _ _ = Ok (?cs, _) |- context [forallb parsed_form ?cs] =>
        rewrite (IHc _ _ _ _ E)
    end; reflexivity.
  - break_in H; try discriminate; injection H as <- <-; try reflexivity. simpl.
    match goal with E : parseNode _ _ = Ok _ |- _ => rewrite (IHn _ _ _ E) end.
    match goal with E : parseChildren _ _ _ = Ok _ |- _ => exact (IHc _ _ _ _ E) end.
Qed.

Lemma spec_hex_digit_not_comma d : Ascii.eqb (spec_hex_digit d) ","%char = false.
Proof.
  unfold spec_hex_digit. generalize (Z.to_nat d) as n. intros n.
  do 16 (destruct n as [|n]; [reflexivity|]). reflexivity.
Qed.

Lemma calculateChecksum_no_comma s :
  str_forall (fun d => negb (Ascii.eqb d ","%char)) (calculateChecksum s) = true.
Proof.
  unfold calculateChecksum, checksum_value.
  destruct (csum_loop_spec s 0) as [_ Hr]; [lia|].
  rewrite format_04x_small by exact Hr. unfold spec_hex4. simpl.
  now rewrite !spec_hex_digit_not_comma.
Qed.

Lemma ParseLayout_BuildLayout t :
  parsed_form t = true -> ParseLayout (BuildLayout t) = Ok t.
Proof.
  intros Ht. unfold ParseLayout, BuildLayout. cbn [String.append].
  rewrite cut_at_app by apply calculateChecksum_no_comma.
  rewrite <- (str_app_nil (buildNodeString t)) at 2.
  rewrite build_parse; [reflexivity | exact Ht | reflexivity |].
  unfold parse_fuel. rewrite str_app_nil. lia.
Qed.

(** C2: whenever [ParseLayout] succeeds on a text, parsing the text that
    [BuildLayout] prints for the parsed tree gives back the same tree:
    same shape, sizes, coordinates, pane ids and split kinds. The
    checksum [BuildLayout] writes is recomputed and never read back. *)
Theorem C2_roundtrip (text : string) (t : LayoutNode) :
  ParseLayout text = Ok t -> ParseLayout (BuildLayout t) = Ok t.
Proof.
  intros H. apply ParseLayout_BuildLayout.
  unfold ParseLayout in H.
  destruct (cut_at _ text) as [[? rest]|]; [|discriminate].
  destruct (parseNode _ rest) as [[t' r]| |] eqn:E; try discriminate.
  injection H as <-. exact (proj1 (parse_form _) _ _ _ E).
Qed.

Lemma C2_roundtrip_witness :
  ParseLayout ex_layout =
    Ok (mkLayoutNode 255 61 0 0 (-1) SplitHorizontal
          [mkLayoutNode 84 61 0 0 (-1) SplitVertical
             [mkLayoutNode 84 30 0 0 26 SplitNone [];
              mkLayoutNode 84 30 0 31 41 SplitNone []];
           mkLayoutNode 85 61 85 0 36 SplitNone [];
           mkLayoutNode 84 61 171 0 42 SplitNone []]) /\
  ParseLayout (BuildLayout
    (mkLayoutNode 255 61 0 0 (-1) SplitHorizontal
          [mkLayoutNode 84 61 0 0 (-1) SplitVertical
             [mkLayoutNode 84 30 0 0 26 SplitNone [];
              mkLayoutNode 84 30 0 31 41 SplitNone []];
           mkLayoutNode 85 61 85 0 36 SplitNone [];
           mkLayoutNode 84 61 171 0 42 SplitNone []])) =
    Ok (mkLayoutNode 255 61 0 0 (-1) SplitHorizontal
          [mkLayoutNode 84 61 0 0 (-1) SplitVertical
             [mkLayoutNode 84 30 0 0 26 SplitNone [];
              mkLayoutNode 84 30 0 31 41 SplitNone []];
           mkLayoutNode 85 61 85 0 36 SplitNone [];
           mkLayoutNode 84 61 171 0 42 SplitNone []]).
Proof.
  assert (H : ParseLayout ex_layout =
    Ok (mkLayoutNode 255 61 0 0 (-1) SplitHorizontal
          [mkLayoutNode 84 61 0 0 (-1) SplitVertical
             [mkLayoutNode 84 30 0 0 26 SplitNone [];
              mkLayoutNode 84 30 0 31 41 SplitNone []];
           mkLayoutNode 85 61 85 0 36 SplitNone [];
           mkLayoutNode 84 61 171 0 42 SplitNone []])) by (vm_compute; reflexivity).
  split; [exact H|]. exact (C2_roundtrip ex_layout _ H).
Defined.

(** ** A target that no leaf carries (C4) *)

Lemma copyLayoutNode_id t : copyLayoutNode t = t.
Proof.
  induction t as [w h x y p st cs IH] using LayoutNode_ind. simpl. f_equal.
  apply list_all_Forall in IH. induction IH as [|c cs Hc _ IHcs]; simpl; congruence.
Qed.

Lemma containsPane_leaf t id :
  parsed_form t = true -> id <> -1 -> containsPane t id = leaf_has_pane t id.
Proof.
  intros Ht Hid. induction t as [w h x y p st cs IH] using LayoutNode_ind.
  apply parsed_form_node in Ht as (_ & _ & _ & _ & _ & Hst).
  apply list_all_Forall in IH.
  assert (Hcs : forallb parsed_form cs = true ->
                existsb (fun c => containsPane c id) cs = existsb (fun c => leaf_has_pane c id) cs).
  { clear Hst. induction IH as [|c cs Hc _ IHcs]; simpl; [reflexivity|].
    intros [H1 H2]%andb_prop. now rewrite Hc, IHcs. }
  destruct st; simpl.
  - now subst cs.
  - destruct Hst as [-> Hf]. rewrite Hcs by exact Hf.
    destruct (Z.eqb_spec (-1) id); [congruence|reflexivity].
  - destruct Hst as [-> Hf]. rewrite Hcs by exact Hf.
    destruct (Z.eqb_spec (-1) id); [congruence|reflexivity].
Qed.

Lemma find_index_none {A} (f : A -> bool) l : existsb f l = false -> find_index f l = None.
Proof.
  induction l as [|a l IH]; simpl; [reflexivity|].
  intros [-> H]%orb_false_elim. now rewrite IH.
Qed.

(** C4: on a tree that [ParseLayout] builds, a target pane id that no
    leaf carries leaves the tree unchanged: [ApplyZoomToLayout] returns a
    copy equal to its input, without error, and the input is a value that
    is never modified. The target ranges over every pane id tmux can report
    ([%N], [N >= 0]), and more: every id other than -1, the marker the
    parser gives to split nodes. *)
Theorem C4_absent_target_unchanged (t : LayoutNode) (activePaneID zoomPercent : Z) :
  parsed_form t = true -> activePaneID <> -1 -> leaf_has_pane t activePaneID = false ->
  ApplyZoomToLayout t activePaneID zoomPercent = t.
Proof.
  intros Ht Hid Hleaf. unfold ApplyZoomToLayout. rewrite copyLayoutNode_id.
  rewrite find_index_none; [reflexivity|].
  rewrite <- containsPane_leaf in Hleaf by assumption.
  destruct t as [w h x y p st cs]. simpl in Hleaf |- *.
  now apply orb_false_elim in Hleaf as [_ ->].
Qed.

Lemma C4_absent_target_unchanged_witness :
  parsed_form (mkLayoutNode 255 61 0 0 (-1) SplitHorizontal
          [mkLayoutNode 84 61 0 0 (-1) SplitVertical
             [mkLayoutNode 84 30 0 0 26 SplitNone [];
              mkLayoutNode 84 30 0 31 41 SplitNone []];
           mkLayoutNode 85 61 85 0 36 SplitNone [];
           mkLayoutNode 84 61 171 0 42 SplitNone []]) = true /\
  ApplyZoomToLayout (mkLayoutNode 255 61 0 0 (-1) SplitHorizontal
          [mkLayoutNode 84 61 0 0 (-1) SplitVertical
             [mkLayoutNode 84 30 0 0 26 SplitNone [];
              mkLayoutNode 84 30 0 31 41 SplitNone []];
           mkLayoutNode 85 61 85 0 36 SplitNone [];
           mkLayoutNode 84 61 171 0 42 SplitNone []]) 7 65 =
  mkLayoutNode 255 61 0 0 (-1) SplitHorizontal
          [mkLayoutNode 84 61 0 0 (-1) SplitVertical
             [mkLayoutNode 84 30 0 0 26 SplitNone [];
              mkLayoutNode 84 30 0 31 41 SplitNone []];
           mkLayoutNode 85 61 85 0 36 SplitNone [];
           mkLayoutNode 84 61 171 0 42 SplitNone []].
Proof.
  split; [vm_compute; reflexivity|].
  apply C4_absent_target_unchanged; [vm_compute; reflexivity | lia | vm_compute; reflexivity].
Defined.

(** ** [ApplyZoom]'s early returns (C9) *)

(** C9: [ApplyZoom] returns without error and runs no command (the log
    is unchanged, so no layout is selected and no pane is resized) when
    tmux reports at most one pane in the window, and also when the current
    session or window differs from the one recorded in the state; this
    holds for every fallback procedure and every answer of tmux to the
    other queries. *)
Theorem C9_apply_noop (applyZoomFallback : State -> Z -> M unit) (state : State)
    (h : Host) (log : list Cmd) (panes session window : string) (paneCount : Z) :
  q_window_panes h = Some panes -> Atoi panes = Some paneCount ->
  (paneCount <= 1 \/
   (q_session_name h = Some session /\ q_window_index h = Some window /\
    (session <> Session state \/ window <> Window state))) ->
  ApplyZoom applyZoomFallback state h log = (inl tt, log).
Proof.
  intros Hq Ha Hcase.
  cbv beta delta [ApplyZoom bind GetPaneCount query from_atoi ret GetCurrentSession GetCurrentWindow].
  rewrite Hq, Ha.
  destruct Hcase as [Hle | (Hs & Hw & Hdiff)].
  - now rewrite (proj2 (Z.leb_le _ _) Hle).
  - destruct (Z.leb paneCount 1); [reflexivity|].
    rewrite Hs, Hw.
    destruct Hdiff as [Hd | Hd].
    + apply String.eqb_neq in Hd. now rewrite Hd.
    + apply String.eqb_neq in Hd. now rewrite Hd, orb_true_r.
Qed.

Lemma C9_apply_noop_witness :
  ApplyZoom (fun _ _ => ret tt) (mkState true "main" "1" "")
    (mkHost (Some "main"%string) (Some "2"%string) None (Some "3"%string) None None (fun _ => true))
    [] = (inl tt, []).
Proof.
  apply (C9_apply_noop _ _ _ _ "3" "main" "2" 3); [reflexivity | reflexivity |].
  right. split; [reflexivity|]. split; [reflexivity|]. right. discriminate.
Defined.

(** ** Brackets left open at the end of the text *)

(** The children loop also stops at the end of the text: the children of a
    printed split parse without their closing bracket. *)
Lemma build_parse_children_open (cs : list LayoutNode) (e : ascii) :
  (e = "}"%char \/ e = "]"%char) -> forallb parsed_form cs = true ->
  forall f, (2 * String.length (String.concat "," (map buildNodeString cs)) + 1 < f)%nat ->
  parseChildren f (String.concat "," (map buildNodeString cs)) e = Ok (cs, EmptyString).
Proof.
  intros He. induction cs as [|c cs IH]; intros Hform f Hf.
  - destruct f as [|f]; [lia|]. reflexivity.
  - simpl in Hform. apply andb_prop in Hform as [Hfc Hfcs].
    assert (Hcat : String.concat "," (map buildNodeString (c :: cs)) =
      (buildNodeString c ++
         match cs with
         | [] => EmptyString
         | _ => String "," (String.concat "," (map buildNodeString cs))
         end)%string).
    { destruct cs; simpl; [now rewrite str_app_nil | reflexivity]. }
    rewrite Hcat in *.
    destruct (build_head c Hfc) as (ch & s & Hb & Hch).
    destruct f as [|f]; [lia|].
    rewrite str_length_append in Hf.
    assert (Hlen : (1 <= String.length (buildNodeString c))%nat) by (rewrite Hb; simpl; lia).
    assert (Hne : Ascii.eqb ch e = false).
    { destruct (Ascii.eqb_spec ch e); [|reflexivity]. subst.
      destruct He as [-> | ->]; discriminate. }
    cbn [parseChildren].
    match goal with |- context [match (buildNodeString c ++ ?T)%string with _ => _ end] =>
      replace (buildNodeString c ++ T)%string with (String ch (s ++ T)) at 1
        by now rewrite Hb end.
    cbv iota beta. rewrite Hne.
    rewrite build_parse; [| exact Hfc | destruct cs; reflexivity
                          | rewrite str_length_append; lia].
    destruct cs as [|c' cs'].
    + cbv iota beta. cbn [skip_comma]. destruct f as [|f]; [simpl in Hf; lia|]. reflexivity.
    + cbv iota beta. cbn [skip_comma]. simpl (Ascii.eqb "," ",").
      cbv iota beta. rewrite IH; [reflexivity | exact Hfcs |].
      cbn [String.length] in Hf. lia.
Qed.

Lemma str_app_last (a b : string) (e e' : ascii) :
  (a ++ String e EmptyString)%string = (b ++ String e' EmptyString)%string -> a = b /\ e = e'.
Proof.
  revert b. induction a as [|x a IH]; intros [|y b] H; simpl in H.
  - now injection H.
  - injection H as _ H. destruct b; discriminate.
  - injection H as _ H. destruct a; discriminate.
  - injection H as -> H. apply IH in H as [-> ->]. auto.
Qed.

Ltac open_split_tac w h x y Hw Hh Hx Hy Hcs :=
  match goal with |- context [parseNode (parse_fuel ?A) ?A] =>
    assert (Ef : parse_fuel A = S (2 * String.length A + 1)) by (unfold parse_fuel; lia);
    rewrite Ef
  end;
  cbn -[Itoa Atoi cut_at scan_until String.length];
  repeat progress (rewrite ?str_app_assoc; cbn [String.append]);
  rewrite cut_at_app by (apply Itoa_no_char; [assumption|reflexivity]);
  rewrite (proj1 (Itoa_spec w Hw));
  rewrite cut_at_app by (apply Itoa_no_char; [assumption|reflexivity]);
  rewrite (proj1 (Itoa_spec h Hh));
  rewrite cut_at_app by (apply Itoa_no_char; [assumption|reflexivity]);
  rewrite (proj1 (Itoa_spec x Hx));
  (rewrite scan_until_app;
    [| apply Itoa_no_sep; [assumption|]; intros c Hc; unfold is_separator; now rewrite Hc
     | reflexivity]);
  rewrite (proj1 (Itoa_spec y Hy)); cbn -[Itoa Atoi cut_at scan_until String.length];
  (rewrite build_parse_children_open; [reflexivity | now (left + right) | exact Hcs |]);
  repeat progress (rewrite ?str_length_append; cbn [String.length String.append]);
  lia.

(** A printed split tree whose closing bracket is dropped still parses to
    the same tree. *)
Lemma ParseLayout_open_split (ck : string) (t : LayoutNode) (open : string) (e : ascii) :
  str_forall (fun d => negb (Ascii.eqb d ","%char)) ck = true ->
  parsed_form t = true -> SplitTy t <> SplitNone ->
  buildNodeString t = (open ++ String e EmptyString)%string ->
  ParseLayout (ck ++ String "," open) = Ok t.
Proof.
  intros Hck Hform Hsplit Hb.
  unfold ParseLayout. rewrite cut_at_app by exact Hck.
  destruct t as [w h x y p st cs].
  pose proof Hform as (Hw & Hh & Hx & Hy & Hp & Hst)%parsed_form_node.
  destruct st; [now contradiction Hsplit| |]; destruct Hst as [-> Hcs].
  - replace (buildNodeString _) with
      ((Itoa w ++ "x" ++ Itoa h ++ "," ++ Itoa x ++ "," ++ Itoa y ++
        String "{" (String.concat "," (map buildNodeString cs))) ++ String "}" EmptyString)%string
      in Hb by (cbn [buildNodeString]; now rewrite !str_app_assoc).
    apply str_app_last in Hb as [Hb _]. subst open.
    open_split_tac w h x y Hw Hh Hx Hy Hcs.
  - replace (buildNodeString _) with
      ((Itoa w ++ "x" ++ Itoa h ++ "," ++ Itoa x ++ "," ++ Itoa y ++
        String "[" (String.concat "," (map buildNodeString cs))) ++ String "]" EmptyString)%string
      in Hb by (cbn [buildNodeString]; now rewrite !str_app_assoc).
    apply str_app_last in Hb as [Hb _]. subst open.
    open_split_tac w h x y Hw Hh Hx Hy Hcs.
Qed.

(** ** What the parser rejects (C6) *)

(** C6, amended: [ParseLayout] fails when the text has no comma to end the
    checksum field; a node fails when its text has no [x], when the width,
    height, x, y or pane id it reads is not a valid [int], and the error
    of a child is the error of its parent and of [ParseLayout]. A split
    whose bracket is never closed is accepted when the text ends (the
    children loop stops at the end of the text, and a child parsed before
    it is kept): every printed split tree with its closing bracket
    dropped parses to the same tree. What follows the root node is
    ignored: whatever text [parseNode] leaves after the root, and any
    text after a printed tree that starts with a comma or a closing
    bracket (the bytes that end a pane id), such as an unmatched closing
    bracket followed by invalid numbers. *)
Theorem C6_parse_errors :
  (forall s, cut_at ","%char s = None ->
     ParseLayout s = Err "invalid layout: no checksum separator") /\
  (forall s pre rest m, cut_at ","%char s = Some (pre, rest) ->
     parseNode (parse_fuel rest) rest = Err m -> ParseLayout s = Err m) /\
  (forall f s, cut_at "x"%char s = None ->
     parseNode (S f) s = Err "invalid node: no 'x' in dimensions") /\
  (forall f s ws s1, cut_at "x"%char s = Some (ws, s1) -> Atoi ws = None ->
     parseNode (S f) s = Err "invalid width") /\
  (forall f s ws s1 w hs s2, cut_at "x"%char s = Some (ws, s1) -> Atoi ws = Some w ->
     cut_at ","%char s1 = Some (hs, s2) -> Atoi hs = None ->
     parseNode (S f) s = Err "invalid height") /\
  (forall f s ws s1 w hs s2 h xs s3, cut_at "x"%char s = Some (ws, s1) -> Atoi ws = Some w ->
     cut_at ","%char s1 = Some (hs, s2) -> Atoi hs = Some h ->
     cut_at ","%char s2 = Some (xs, s3) -> Atoi xs = None ->
     parseNode (S f) s = Err "invalid x") /\
  (forall f s ws s1 w hs s2 h xs s3 x ys s4, cut_at "x"%char s = Some (ws, s1) -> Atoi ws = Some w ->
     cut_at ","%char s1 = Some (hs, s2) -> Atoi hs = Some h ->
     cut_at ","%char s2 = Some (xs, s3) -> Atoi xs = Some x ->
     scan_until is_y_end s3 = (ys, s4) -> Atoi ys = None ->
     parseNode (S f) s = Err "invalid y") /\
  (forall f s ws s1 w hs s2 h xs s3 x ys s5 y ps s6, cut_at "x"%char s = Some (ws, s1) -> Atoi ws = Some w ->
     cut_at ","%char s1 = Some (hs, s2) -> Atoi hs = Some h ->
     cut_at ","%char s2 = Some (xs, s3) -> Atoi xs = Some x ->
     scan_until is_y_end s3 = (ys, String ","%char s5) -> Atoi ys = Some y ->
     scan_until is_pane_end s5 = (ps, s6) -> Atoi ps = None ->
     parseNode (S f) s = Err "invalid pane ID") /\
  (forall f s e c r m, s = String c r -> Ascii.eqb c e = false ->
     parseNode f s = Err m -> parseChildren (S f) s e = Err m) /\
  (forall f s e c r child rest m, s = String c r -> Ascii.eqb c e = false ->
     parseNode f s = Ok (child, rest) -> parseChildren f (skip_comma rest) e = Err m ->
     parseChildren (S f) s e = Err m) /\
  (forall f s ws s1 w hs s2 h xs s3 x ys s5 y b m, cut_at "x"%char s = Some (ws, s1) -> Atoi ws = Some w ->
     cut_at ","%char s1 = Some (hs, s2) -> Atoi hs = Some h ->
     cut_at ","%char s2 = Some (xs, s3) -> Atoi xs = Some x ->
     scan_until is_y_end s3 = (ys, String b s5) -> Atoi ys = Some y ->
     (b = "{"%char /\ parseChildren f s5 "}"%char = Err m \/
      b = "["%char /\ parseChildren f s5 "]"%char = Err m) ->
     parseNode (S f) s = Err m) /\
  (forall f e, parseChildren (S f) EmptyString e = Ok ([], EmptyString)) /\
  (forall f s e c r child rest cs r', s = String c r -> Ascii.eqb c e = false ->
     parseNode f s = Ok (child, rest) -> parseChildren f (skip_comma rest) e = Ok (cs, r') ->
     parseChildren (S f) s e = Ok (child :: cs, r')) /\
  (forall ck t open e, str_forall (fun d => negb (Ascii.eqb d ","%char)) ck = true ->
     parsed_form t = true -> SplitTy t <> SplitNone ->
     buildNodeString t = (open ++ String e EmptyString)%string ->
     ParseLayout (ck ++ String "," open) = Ok t) /\
  (forall s pre rest t r, cut_at ","%char s = Some (pre, rest) ->
     parseNode (parse_fuel rest) rest = Ok (t, r) -> ParseLayout s = Ok t) /\
  (forall ck t r, str_forall (fun d => negb (Ascii.eqb d ","%char)) ck = true ->
     parsed_form t = true -> ends_field r = true ->
     ParseLayout (ck ++ String "," (buildNodeString t ++ r)) = Ok t).
Proof.
  repeat split.
  - intros s H. unfold ParseLayout. now rewrite H.
  - intros s pre rest m H E. unfold ParseLayout. now rewrite H, E.
  - intros f s H. simpl. now rewrite H.
  - intros * H1 H2. simpl. now rewrite H1, H2.
  - intros * H1 H2 H3 H4. simpl. now rewrite H1, H2, H3, H4.
  - intros * H1 H2 H3 H4 H5 H6. simpl. now rewrite H1, H2, H3, H4, H5, H6.
  - intros * H1 H2 H3 H4 H5 H6 H7 H8. simpl. now rewrite H1, H2, H3, H4, H5, H6, H7, H8.
  - intros * H1 H2 H3 H4 H5 H6 H7 H8 H9 H10. simpl.
    rewrite H1, H2, H3, H4, H5, H6, H7, H8. simpl. now rewrite H9, H10.
  - intros * -> Hc E. simpl. now rewrite Hc, E.
  - intros * -> Hc E1 E2. simpl. rewrite Hc. simpl in E1. now rewrite E1, E2.
  - intros * H1 H2 H3 H4 H5 H6 H7 H8 [[-> H9] | [-> H9]]; simpl;
      rewrite H1, H2, H3, H4, H5, H6, H7, H8; simpl; now rewrite H9.
  - intros * -> Hc E1 E2. simpl. rewrite Hc. simpl in E1. now rewrite E1, E2.
  - intros * Hck Hform Hsplit Hb. exact (ParseLayout_open_split ck t open e Hck Hform Hsplit Hb).
  - intros * H E. unfold ParseLayout. now rewrite H, E.
  - intros * Hck Hform Hr. unfold ParseLayout. rewrite cut_at_app by exact Hck.
    rewrite build_parse; [reflexivity | exact Hform | exact Hr |].
    unfold parse_fuel. lia.
Qed.

(** ** The sizes of the zoomed split (C7) *)

Lemma wrap64_id z : int_min <= z <= int_max -> wrap64 z = z.
Proof.
  unfold wrap64, int_min, int_max. intros Hz.
  rewrite Z.mod_small; lia.
Qed.

Lemma wrap64_range z : int_min <= wrap64 z <= int_max.
Proof.
  unfold wrap64, int_min, int_max.
  pose proof (Z.mod_pos_bound (z + 2 ^ 63) (2 ^ 64)). lia.
Qed.

Lemma wrap64_add_wrap a b : wrap64 (wrap64 a + b) = wrap64 (a + b).
Proof.
  unfold wrap64.
  replace ((a + 2 ^ 63) mod 2 ^ 64 - 2 ^ 63 + b + 2 ^ 63)
    with ((a + 2 ^ 63) mod 2 ^ 64 + b) by ring.
  rewrite Z.add_mod_idemp_l by lia. f_equal. f_equal. ring.
Qed.

Lemma sum64_spec l acc :
  int_min <= acc <= int_max -> fold_left add64 l acc = wrap64 (acc + sumZ l).
Proof.
  revert acc. induction l as [|z l IH]; intros acc Hacc; simpl.
  - rewrite Z.add_0_r. symmetry. now apply wrap64_id.
  - rewrite IH by apply wrap64_range. unfold add64. rewrite wrap64_add_wrap. f_equal. ring.
Qed.

Lemma sumZ_app l1 l2 : sumZ (l1 ++ l2) = sumZ l1 + sumZ l2.
Proof. induction l1 as [|z l IH]; simpl; [reflexivity|]. unfold sumZ in *. simpl. lia. Qed.

Lemma sumZ_cons z l : sumZ (z :: l) = z + sumZ l.
Proof. reflexivity. Qed.

Lemma sumZ_nonneg l : Forall (fun z => 0 <= z) l -> 0 <= sumZ l.
Proof. induction 1; rewrite ?sumZ_cons; simpl; unfold sumZ in *; simpl in *; lia. Qed.

Lemma sumZ_In z l : Forall (fun z => 0 <= z) l -> In z l -> z <= sumZ l.
Proof.
  induction 1 as [|a l Ha Hl IH]; [intros []|]. rewrite sumZ_cons.
  pose proof (sumZ_nonneg l Hl). intros [->|Hin]; [lia|]. specialize (IH Hin). lia.
Qed.

Lemma sumZ_const (k : Z) {A} (l : list A) :
  sumZ (map (fun _ => k) l) = Z.of_nat (List.length l) * k.
Proof. induction l as [|a l IH]; [reflexivity|]. cbn [map List.length]. rewrite sumZ_cons, IH. lia. Qed.

(** The floors of the proportional shares: [sum (s * R / O)] lies within
    one cell per child below [R * (sum s) / O]. *)
Lemma floor_sum_bounds (l : list Z) (R O : Z) :
  0 < O -> 0 <= R -> Forall (fun z => 0 <= z) l ->
  O * sumZ (map (fun s => s * R / O) l) <= R * sumZ l /\
  R * sumZ l - Z.of_nat (List.length l) * (O - 1) <= O * sumZ (map (fun s => s * R / O) l).
Proof.
  intros HO HR. induction 1 as [|s l Hs Hl [IH1 IH2]]; simpl map; rewrite ?sumZ_cons.
  - unfold sumZ; simpl. lia.
  - pose proof (Z.mul_div_le (s * R) O HO).
    pose proof (Z.mod_pos_bound (s * R) O HO).
    pose proof (Z.div_mod (s * R) O ltac:(lia)).
    cbn [List.length]. rewrite Nat2Z.inj_succ. split; nia.
Qed.

Section AxisZoom.

Variable ax : Axis.
Variable activeIdx : nat.

Lemma other_sum_after l : forall k acc,
  (activeIdx < k)%nat -> int_min <= acc <= int_max ->
  other_sum ax activeIdx k acc l = wrap64 (acc + sumZ (map (size_along ax) l)).
Proof.
  induction l as [|c l IH]; intros k acc Hk Hacc; cbn [other_sum map].
  - rewrite Z.add_0_r. symmetry. now apply wrap64_id.
  - destruct (Nat.eqb_spec k activeIdx); [lia|].
    rewrite IH by (lia || apply wrap64_range). unfold add64. rewrite wrap64_add_wrap.
    rewrite sumZ_cons. f_equal. ring.
Qed.

Lemma other_sum_split pre c post : forall k acc,
  (k + List.length pre = activeIdx)%nat -> int_min <= acc <= int_max ->
  other_sum ax activeIdx k acc (pre ++ c :: post) =
  wrap64 (acc + sumZ (map (size_along ax) pre) + sumZ (map (size_along ax) post)).
Proof.
  induction pre as [|d pre IH]; intros k acc Hk Hacc; cbn [app other_sum map List.length] in *.
  - rewrite Nat.add_0_r in Hk. subst k. rewrite Nat.eqb_refl.
    rewrite other_sum_after by (lia || assumption). f_equal. unfold sumZ. simpl. ring.
  - destruct (Nat.eqb_spec k activeIdx); [lia|].
    rewrite IH by (lia || apply wrap64_range). unfold add64. rewrite <- Z.add_assoc, wrap64_add_wrap.
    rewrite sumZ_cons. f_equal. ring.
Qed.

Variables (nchildren target remaining other : Z).

Lemma new_size_other k c :
  k <> activeIdx ->
  new_size ax nchildren activeIdx target remaining other k c =
  new_size ax nchildren activeIdx target remaining other (S activeIdx) c.
Proof.
  intros Hk. unfold new_size. apply Nat.eqb_neq in Hk. rewrite Hk.
  replace (Nat.eqb (S activeIdx) activeIdx) with false by (symmetry; apply Nat.eqb_neq; lia).
  reflexivity.
Qed.

Lemma new_sizes_after l : forall k,
  (activeIdx < k)%nat ->
  new_sizes ax nchildren activeIdx target remaining other k l =
  map (new_size ax nchildren activeIdx target remaining other (S activeIdx)) l.
Proof.
  induction l as [|c l IH]; intros k Hk; cbn [new_sizes map]; [reflexivity|].
  rewrite new_size_other by lia. f_equal. apply IH. lia.
Qed.

Lemma new_sizes_split pre c post : forall k,
  (k + List.length pre = activeIdx)%nat ->
  new_sizes ax nchildren activeIdx target remaining other k (pre ++ c :: post) =
  map (new_size ax nchildren activeIdx target remaining other (S activeIdx)) pre ++
  target :: map (new_size ax nchildren activeIdx target remaining other (S activeIdx)) post.
Proof.
  induction pre as [|d pre IH]; intros k Hk; cbn [app new_sizes map List.length] in *.
  - rewrite Nat.add_0_r in Hk. subst k. f_equal.
    + unfold new_size. now rewrite Nat.eqb_refl.
    + apply new_sizes_after. lia.
  - rewrite new_size_other by lia. f_equal. apply IH. lia.
Qed.

End AxisZoom.

Lemma set_nth_middle {A} (pre post : list A) (x v : A) :
  set_nth (List.length pre) v (pre ++ x :: post) = pre ++ v :: post.
Proof. induction pre as [|a pre IH]; simpl; [reflexivity|]. now rewrite IH. Qed.

Lemma size_set_size ax n v : size_along ax (set_size ax n v) = v.
Proof. destruct n, ax; reflexivity. Qed.

Lemma size_update_child_size ax n v : size_along ax (update_child_size ax n v) = v.
Proof. destruct n. cbn [update_child_size]. apply size_set_size. Qed.

Lemma place_sizes ax cs : forall cur sizes,
  List.length cs = List.length sizes ->
  map (size_along ax) (place ax cur cs sizes) = sizes.
Proof.
  induction cs as [|c cs IH]; intros cur [|s ss] Hlen; simpl in *; try discriminate; [reflexivity|].
  rewrite size_update_child_size, IH by lia. reflexivity.
Qed.

Lemma nth_other {A} (l1 l2 : list A) (x d : A) (j : nat) :
  j <> List.length l1 -> (j < List.length (l1 ++ x :: l2))%nat ->
  In (nth j (l1 ++ x :: l2) d) (l1 ++ l2).
Proof.
  intros Hj Hlt. rewrite length_app in Hlt. cbn [List.length] in Hlt.
  destruct (Nat.lt_ge_cases j (List.length l1)) as [H|H].
  - rewrite app_nth1 by exact H. apply in_or_app. left. now apply nth_In.
  - rewrite app_nth2 by exact H. apply in_or_app. right.
    destruct (j - List.length l1)%nat as [|k] eqn:E; [lia|]. simpl.
    apply nth_In. lia.
Qed.

(** The sizes [apply_axis_zoom] gives to the children of a split whose
    children fill it ([sum + borders = size]): the active child gets
    [available * p / 100] plus the adjustment [available - used], which is
    between 0 and [n - 2]; every other child gets at most the remaining
    [available - target]. *)
Lemma apply_axis_zoom_sizes ax t i zoomPercent :
  (2 <= List.length (Children t))%nat -> (i < List.length (Children t))%nat ->
  0 <= zoomPercent <= 100 ->
  Forall (fun c => 0 <= size_along ax c) (Children t) ->
  sumZ (map (size_along ax) (Children t)) + (Z.of_nat (List.length (Children t)) - 1) =
    size_along ax t ->
  size_along ax t < 2 ^ 31 ->
  let n := Z.of_nat (List.length (Children t)) in
  let available := size_along ax t - (n - 1) in
  let target := available * zoomPercent / 100 in
  let sizes := map (size_along ax) (Children (apply_axis_zoom ax t i zoomPercent)) in
  List.length sizes = List.length (Children t) /\
  target <= nth i sizes 0 <= target + (n - 2) /\
  (forall j, j <> i -> (j < List.length sizes)%nat ->
     0 <= nth j sizes 0 <= available - target).
Proof.
  intros H2 Hi Hp Hpos Hcons Hbig n available target sizes.
  remember (size_along ax t) as Sz eqn:HS.
  destruct t as [w h x y p st cs]. cbn [Children] in *.
  destruct (@nth_split LayoutNode i cs (mkLayoutNode 0 0 0 0 0 SplitNone []) Hi)
    as (pre & post & Hcs & Hlen).
  set (c := nth i cs _) in Hcs. clearbody c. subst cs.
  subst sizes. unfold apply_axis_zoom. rewrite <- HS.
  replace (List.length (pre ++ c :: post) <=? 1)%nat with false
    by (symmetry; apply Nat.leb_gt; lia).
  cbv zeta. cbn [Children]. fold n.
  (* the sizes of the children *)
  set (P := sumZ (map (size_along ax) pre)).
  set (Q := sumZ (map (size_along ax) post)).
  assert (Hpq : Forall (fun z => 0 <= z) (map (size_along ax) (pre ++ post))).
  { apply Forall_map. apply Forall_app in Hpos as [H1 H3]. inversion H3; subst.
    apply Forall_app. split; assumption. }
  assert (HP : 0 <= P).
  { apply sumZ_nonneg. rewrite map_app in Hpq. apply Forall_app in Hpq. tauto. }
  assert (HQ : 0 <= Q).
  { apply sumZ_nonneg. rewrite map_app in Hpq. apply Forall_app in Hpq. tauto. }
  assert (Hc : 0 <= size_along ax c).
  { apply Forall_app in Hpos as [_ H3]. now inversion H3. }
  assert (Hlen' : n = Z.of_nat i + 1 + Z.of_nat (List.length post)).
  { subst n. rewrite length_app. cbn [List.length]. lia. }
  rewrite map_app, sumZ_app in Hcons. cbn [map] in Hcons. rewrite sumZ_cons in Hcons.
  fold P Q in Hcons. fold n in Hcons.
  assert (Hav : available = P + size_along ax c + Q) by (subst available; lia).
  assert (E1 : sub64 n 1 = n - 1).
  { unfold sub64. apply wrap64_id. unfold int_min, int_max. lia. }
  assert (E2 : sub64 Sz (n - 1) = available).
  { unfold sub64. rewrite wrap64_id; [reflexivity|]. unfold int_min, int_max. lia. }
  assert (Htar : 0 <= target <= available).
  { subst target. split; [apply Z.div_pos; nia|].
    apply Z.div_le_upper_bound; nia. }
  assert (E3 : quot64 (mul64 available zoomPercent) 100 = target).
  { unfold quot64, mul64. rewrite (wrap64_id (available * zoomPercent)) by (unfold int_min, int_max; nia).
    rewrite Z.quot_div_nonneg by nia. apply wrap64_id. unfold int_min, int_max. lia. }
  set (R := available - target).
  assert (E4 : sub64 available target = R).
  { unfold sub64. apply wrap64_id. unfold int_min, int_max. lia. }
  assert (E5 : other_sum ax i 0 0 (pre ++ c :: post) = P + Q).
  { rewrite other_sum_split by (unfold int_min, int_max; lia).
    apply wrap64_id. unfold int_min, int_max. lia. }
  rewrite E1, E2, E3, E4, E5.
  rewrite (new_sizes_split ax i n target R (P + Q) pre c post 0) by lia.
  set (g := new_size ax n i target R (P + Q) (S i)).
  assert (Hsum_pq : sumZ (map (size_along ax) (pre ++ post)) = P + Q).
  { rewrite map_app, sumZ_app. reflexivity. }
  assert (Hg : forall c', In c' (pre ++ post) ->
            g c' = (if 0 <? P + Q then size_along ax c' * R / (P + Q) else R / (n - 1)) /\
            0 <= g c' <= R).
  { intros c' Hin.
    assert (Hs : 0 <= size_along ax c' <= P + Q).
    { rewrite <- Hsum_pq. split.
      - rewrite Forall_forall in Hpq. apply Hpq, in_map, Hin.
      - apply sumZ_In; [exact Hpq|]. apply in_map, Hin. }
    unfold g, new_size.
    replace (Nat.eqb (S i) i) with false by (symmetry; apply Nat.eqb_neq; lia).
    destruct (Z.ltb_spec 0 (P + Q)).
    - unfold quot64, mul64.
      rewrite (wrap64_id (size_along ax c' * R)) by (unfold int_min, int_max; nia).
      rewrite Z.quot_div_nonneg by nia.
      assert (Hb : 0 <= size_along ax c' * R / (P + Q) <= R).
      { split; [apply Z.div_pos; nia|]. apply Z.div_le_upper_bound; nia. }
      rewrite wrap64_id by (unfold int_min, int_max; lia). split; [reflexivity|exact Hb].
    - unfold quot64. rewrite E1.
      rewrite Z.quot_div_nonneg by lia.
      assert (Hb : 0 <= R / (n - 1) <= R).
      { split; [apply Z.div_pos; lia|]. apply Z.div_le_upper_bound; nia. }
      rewrite wrap64_id by (unfold int_min, int_max; lia). split; [reflexivity|exact Hb]. }
  set (F := sumZ (map g (pre ++ post))).
  assert (HF : R - (n - 2) <= F <= R).
  { destruct (Z.ltb_spec 0 (P + Q)) as [Hlt|Hge].
    - assert (Hm : map g (pre ++ post) =
                   map (fun s => s * R / (P + Q)) (map (size_along ax) (pre ++ post))).
      { rewrite map_map. apply map_ext_in. intros c' Hin.
        destruct (Hg c' Hin) as [-> _]. reflexivity. }
      unfold F. rewrite Hm.
      destruct (floor_sum_bounds (map (size_along ax) (pre ++ post)) R (P + Q))
        as [B1 B2]; [lia | lia | exact Hpq |].
      rewrite Hsum_pq in B1, B2. rewrite length_map, length_app in B2.
      assert (Hl : Z.of_nat (List.length pre + List.length post) = n - 1) by lia.
      rewrite Hl in B2. split; nia.
    - assert (Hm : map g (pre ++ post) = map (fun _ => R / (n - 1)) (pre ++ post)).
      { apply map_ext_in. intros c' Hin.
        destruct (Hg c' Hin) as [-> _]. reflexivity. }
      unfold F. rewrite Hm, sumZ_const, length_app.
      assert (Hl : Z.of_nat (List.length pre + List.length post) = n - 1) by lia.
      rewrite Hl.
      pose proof (Z.mul_div_le R (n - 1) ltac:(lia)).
      pose proof (Z.mod_pos_bound R (n - 1) ltac:(lia)).
      pose proof (Z.div_mod R (n - 1) ltac:(lia)). lia. }
  assert (HF0 : 0 <= F).
  { apply sumZ_nonneg. apply Forall_forall. intros z Hz.
    apply in_map_iff in Hz as (c' & <- & Hin). apply (Hg c' Hin). }
  assert (Hused : sum64 (map g pre ++ target :: map g post) = target + F).
  { unfold sum64. rewrite sum64_spec by (unfold int_min, int_max; lia).
    rewrite sumZ_app, sumZ_cons.
    assert (HFe : F = sumZ (map g pre) + sumZ (map g post))
      by (unfold F; now rewrite map_app, sumZ_app).
    rewrite wrap64_id by (unfold int_min, int_max; lia). lia. }
  assert (Hlen_g : List.length (map g pre) = i) by (now rewrite length_map).
  assert (Hsizes :
    (if sum64 (map g pre ++ target :: map g post) =? available
     then map g pre ++ target :: map g post
     else set_nth i (add64 (nth i (map g pre ++ target :: map g post) 0)
                      (sub64 available (sum64 (map g pre ++ target :: map g post))))
            (map g pre ++ target :: map g post)) =
    map g pre ++ (available - F) :: map g post).
  { rewrite Hused. rewrite <- Hlen_g.
    rewrite nth_middle, set_nth_middle.
    destruct (Z.eqb_spec (target + F) available).
    - do 2 f_equal. lia.
    - do 2 f_equal. unfold add64, sub64.
      rewrite (wrap64_id (available - (target + F))) by (unfold int_min, int_max; lia).
      rewrite wrap64_id by (unfold int_min, int_max; lia). lia. }
  rewrite Hsizes.
  rewrite place_sizes
    by (rewrite !length_app; cbn [List.length]; rewrite !length_map; reflexivity).
  assert (Hnth : nth i (map g pre ++ (available - F) :: map g post) 0 = available - F)
    by (rewrite <- Hlen_g; apply nth_middle).
  rewrite Hnth.
  split; [rewrite !length_app; cbn [List.length]; now rewrite !length_map|].
  split; [lia|].
  intros j Hj Hjlt.
  assert (Hin : In (nth j (map g pre ++ (available - F) :: map g post) 0) (map g pre ++ map g post)).
  { apply nth_other; [lia | exact Hjlt]. }
  rewrite <- map_app in Hin. apply in_map_iff in Hin as (c' & Heq & Hin).
  rewrite <- Heq. apply (Hg c' Hin).
Qed.

Lemma size_apply_axis_zoom ax ax' n i p :
  size_along ax' (apply_axis_zoom ax n i p) = size_along ax' n.
Proof.
  destruct n as [w h x y q st cs]. unfold apply_axis_zoom.
  destruct (_ <=? 1)%nat; [reflexivity|]. destruct ax'; reflexivity.
Qed.

Lemma size_zoom_by_split ax n i p : size_along ax (zoom_by_split n i p) = size_along ax n.
Proof.
  unfold zoom_by_split. destruct (SplitTy n); [reflexivity | apply size_apply_axis_zoom..].
Qed.

Lemma size_nested_zoom ax f n id p : size_along ax (nested_zoom f n id p) = size_along ax n.
Proof. destruct f, n, ax; reflexivity. Qed.

Lemma map_size_update_first ax (f : LayoutNode -> bool) g l :
  (forall a, size_along ax (g a) = size_along ax a) ->
  map (size_along ax) (update_first f g l) = map (size_along ax) l.
Proof.
  intros Hg. induction l as [|a l IH]; simpl; [reflexivity|].
  destruct (f a); simpl; now rewrite ?Hg, ?IH.
Qed.

Lemma children_sizes_nested_zoom ax f n id p :
  map (size_along ax) (Children (nested_zoom f n id p)) = map (size_along ax) (Children n).
Proof.
  destruct f as [|f]; [reflexivity|]. destruct n as [w h x y q st cs]. cbn [nested_zoom Children].
  apply map_size_update_first. intros a.
  destruct (1 <? List.length (Children a))%nat; [|reflexivity].
  destruct (find_index _ _); [|reflexivity].
  now rewrite size_nested_zoom, size_zoom_by_split.
Qed.

Lemma find_index_lt {A} (f : A -> bool) l i : find_index f l = Some i -> (i < List.length l)%nat.
Proof.
  revert i. induction l as [|a l IH]; intros i; simpl; [discriminate|].
  destruct (f a). { intros [= <-]. lia. }
  destruct (find_index f l) as [k|] eqn:E; simpl; [|discriminate].
  intros [= <-]. specialize (IH k eq_refl). lia.
Qed.

(** C7, amended: at the root split, on the split's axis, when the children
    fill the split ([sum of sizes + borders = size]) and [0 <= p <= 100]:
    the child holding the target gets [floor(available * p / 100)] plus a
    rounding adjustment between 0 and [n - 2], every other child gets at
    most the remaining [available - floor(available * p / 100)], so the
    target's child is at least as large as every sibling whenever
    [2 * floor(available * p / 100) >= available]; the condition
    [p >= 100 / n] is not enough. *)
Theorem C7_target_share (ax : Axis) (t : LayoutNode) (activePaneID zoomPercent : Z) (i : nat) :
  SplitTy t = split_along ax ->
  find_index (fun c => containsPane c activePaneID) (Children t) = Some i ->
  (2 <= List.length (Children t))%nat ->
  0 <= zoomPercent <= 100 ->
  Forall (fun c => 0 <= size_along ax c) (Children t) ->
  sumZ (map (size_along ax) (Children t)) + (Z.of_nat (List.length (Children t)) - 1) =
    size_along ax t ->
  size_along ax t < 2 ^ 31 ->
  let n := Z.of_nat (List.length (Children t)) in
  let available := size_along ax t - (n - 1) in
  let target := available * zoomPercent / 100 in
  let sizes := map (size_along ax) (Children (zoom_transform t activePaneID zoomPercent)) in
  List.length sizes = List.length (Children t) /\
  target <= nth i sizes 0 <= target + (n - 2) /\
  (forall j, j <> i -> (j < List.length sizes)%nat -> 0 <= nth j sizes 0 <= available - target) /\
  (available <= 2 * target ->
     forall j, (j < List.length sizes)%nat -> nth j sizes 0 <= nth i sizes 0).
Proof.
  intros Hst Hfind H2 Hp Hpos Hcons Hbig n available target sizes.
  assert (Hsz : sizes = map (size_along ax) (Children (apply_axis_zoom ax t i zoomPercent))).
  { subst sizes. unfold zoom_transform, applyNestedZoom.
    rewrite children_sizes_nested_zoom. unfold ApplyZoomToLayout.
    rewrite copyLayoutNode_id, Hfind. unfold zoom_by_split. rewrite Hst.
    destruct ax; reflexivity. }
  rewrite Hsz.
  destruct (apply_axis_zoom_sizes ax t i zoomPercent H2 (find_index_lt _ _ _ Hfind) Hp Hpos Hcons Hbig)
    as (Hlen & Htarget & Hother).
  fold n available target in Hlen, Htarget, Hother.
  split; [exact Hlen|]. split; [exact Htarget|]. split; [exact Hother|].
  intros Hdom j Hj. destruct (Nat.eq_dec j i) as [->|Hne]; [lia|].
  specialize (Hother j Hne Hj). lia.
Qed.

Lemma C7_target_share_witness :
  let t := mkLayoutNode 255 61 0 0 (-1) SplitHorizontal
          [mkLayoutNode 84 61 0 0 (-1) SplitVertical
             [mkLayoutNode 84 30 0 0 26 SplitNone [];
              mkLayoutNode 84 30 0 31 41 SplitNone []];
           mkLayoutNode 85 61 85 0 36 SplitNone [];
           mkLayoutNode 84 61 171 0 42 SplitNone []] in
  let sizes := map (size_along AxisWidth) (Children (zoom_transform t 26 65)) in
  List.length sizes = 3%nat /\ 164 <= nth 0 sizes 0 <= 165.
Proof.
  intros t sizes.
  destruct (C7_target_share AxisWidth t 26 65 0) as (Hlen & Ht & _);
    [reflexivity | reflexivity | simpl; lia | lia
    | repeat constructor; discriminate | reflexivity | reflexivity |].
  split; [exact Hlen|]. exact Ht.
Defined.

(** ** The layout of the children after the zoom *)

Lemma apply_axis_zoom_children ax t i zoomPercent :
  (2 <= List.length (Children t))%nat -> (i < List.length (Children t))%nat ->
  0 <= zoomPercent <= 100 ->
  Forall (fun c => 0 <= size_along ax c) (Children t) ->
  sumZ (map (size_along ax) (Children t)) + (Z.of_nat (List.length (Children t)) - 1) =
    size_along ax t ->
  size_along ax t < 2 ^ 31 ->
  let n := Z.of_nat (List.length (Children t)) in
  let available := size_along ax t - (n - 1) in
  let target := available * zoomPercent / 100 in
  exists sizes,
    Children (apply_axis_zoom ax t i zoomPercent) = place ax (pos_along ax t) (Children t) sizes /\
    List.length sizes = List.length (Children t) /\
    Forall (fun z => 0 <= z) sizes /\ sumZ sizes = available.
Proof.
  intros H2 Hi Hp Hpos Hcons Hbig n available target.
  remember (size_along ax t) as Sz eqn:HS.
  destruct t as [w h x y p st cs]. cbn [Children] in *.
  destruct (@nth_split LayoutNode i cs (mkLayoutNode 0 0 0 0 0 SplitNone []) Hi)
    as (pre & post & Hcs & Hlen).
  set (c := nth i cs _) in Hcs. clearbody c. subst cs.
  unfold apply_axis_zoom. rewrite <- HS.
  replace (List.length (pre ++ c :: post) <=? 1)%nat with false
    by (symmetry; apply Nat.leb_gt; lia).
  cbv zeta. cbn [Children]. fold n.
  (* the sizes of the children *)
  set (P := sumZ (map (size_along ax) pre)).
  set (Q := sumZ (map (size_along ax) post)).
  assert (Hpq : Forall (fun z => 0 <= z) (map (size_along ax) (pre ++ post))).
  { apply Forall_map. apply Forall_app in Hpos as [H1 H3]. inversion H3; subst.
    apply Forall_app. split; assumption. }
  assert (HP : 0 <= P).
  { apply sumZ_nonneg. rewrite map_app in Hpq. apply Forall_app in Hpq. tauto. }
  assert (HQ : 0 <= Q).
  { apply sumZ_nonneg. rewrite map_app in Hpq. apply Forall_app in Hpq. tauto. }
  assert (Hc : 0 <= size_along ax c).
  { apply Forall_app in Hpos as [_ H3]. now inversion H3. }
  assert (Hlen' : n = Z.of_nat i + 1 + Z.of_nat (List.length post)).
  { subst n. rewrite length_app. cbn [List.length]. lia. }
  rewrite map_app, sumZ_app in Hcons. cbn [map] in Hcons. rewrite sumZ_cons in Hcons.
  fold P Q in Hcons. fold n in Hcons.
  assert (Hav : available = P + size_along ax c + Q) by (subst available; lia).
  assert (E1 : sub64 n 1 = n - 1).
  { unfold sub64. apply wrap64_id. unfold int_min, int_max. lia. }
  assert (E2 : sub64 Sz (n - 1) = available).
  { unfold sub64. rewrite wrap64_id; [reflexivity|]. unfold int_min, int_max. lia. }
  assert (Htar : 0 <= target <= available).
  { subst target. split; [apply Z.div_pos; nia|].
    apply Z.div_le_upper_bound; nia. }
  assert (E3 : quot64 (mul64 available zoomPercent) 100 = target).
  { unfold quot64, mul64. rewrite (wrap64_id (available * zoomPercent)) by (unfold int_min, int_max; nia).
    rewrite Z.quot_div_nonneg by nia. apply wrap64_id. unfold int_min, int_max. lia. }
  set (R := available - target).
  assert (E4 : sub64 available target = R).
  { unfold sub64. apply wrap64_id. unfold int_min, int_max. lia. }
  assert (E5 : other_sum ax i 0 0 (pre ++ c :: post) = P + Q).
  { rewrite other_sum_split by (unfold int_min, int_max; lia).
    apply wrap64_id. unfold int_min, int_max. lia. }
  rewrite E1, E2, E3, E4, E5.
  rewrite (new_sizes_split ax i n target R (P + Q) pre c post 0) by lia.
  set (g := new_size ax n i target R (P + Q) (S i)).
  assert (Hsum_pq : sumZ (map (size_along ax) (pre ++ post)) = P + Q).
  { rewrite map_app, sumZ_app. reflexivity. }
  assert (Hg : forall c', In c' (pre ++ post) ->
            g c' = (if 0 <? P + Q then size_along ax c' * R / (P + Q) else R / (n - 1)) /\
            0 <= g c' <= R).
  { intros c' Hin.
    assert (Hs : 0 <= size_along ax c' <= P + Q).
    { rewrite <- Hsum_pq. split.
      - rewrite Forall_forall in Hpq. apply Hpq, in_map, Hin.
      - apply sumZ_In; [exact Hpq|]. apply in_map, Hin. }
    unfold g, new_size.
    replace (Nat.eqb (S i) i) with false by (symmetry; apply Nat.eqb_neq; lia).
    destruct (Z.ltb_spec 0 (P + Q)).
    - unfold quot64, mul64.
      rewrite (wrap64_id (size_along ax c' * R)) by (unfold int_min, int_max; nia).
      rewrite Z.quot_div_nonneg by nia.
      assert (Hb : 0 <= size_along ax c' * R / (P + Q) <= R).
      { split; [apply Z.div_pos; nia|]. apply Z.div_le_upper_bound; nia. }
      rewrite wrap64_id by (unfold int_min, int_max; lia). split; [reflexivity|exact Hb].
    - unfold quot64. rewrite E1.
      rewrite Z.quot_div_nonneg by lia.
      assert (Hb : 0 <= R / (n - 1) <= R).
      { split; [apply Z.div_pos; lia|]. apply Z.div_le_upper_bound; nia. }
      rewrite wrap64_id by (unfold int_min, int_max; lia). split; [reflexivity|exact Hb]. }
  set (F := sumZ (map g (pre ++ post))).
  assert (HF : R - (n - 2) <= F <= R).
  { destruct (Z.ltb_spec 0 (P + Q)) as [Hlt|Hge].
    - assert (Hm : map g (pre ++ post) =
                   map (fun s => s * R / (P + Q)) (map (size_along ax) (pre ++ post))).
      { rewrite map_map. apply map_ext_in. intros c' Hin.
        destruct (Hg c' Hin) as [-> _]. reflexivity. }
      unfold F. rewrite Hm.
      destruct (floor_sum_bounds (map (size_along ax) (pre ++ post)) R (P + Q))
        as [B1 B2]; [lia | lia | exact Hpq |].
      rewrite Hsum_pq in B1, B2. rewrite length_map, length_app in B2.
      assert (Hl : Z.of_nat (List.length pre + List.length post) = n - 1) by lia.
      rewrite Hl in B2. split; nia.
    - assert (Hm : map g (pre ++ post) = map (fun _ => R / (n - 1)) (pre ++ post)).
      { apply map_ext_in. intros c' Hin.
        destruct (Hg c' Hin) as [-> _]. reflexivity. }
      unfold F. rewrite Hm, sumZ_const, length_app.
      assert (Hl : Z.of_nat (List.length pre + List.length post) = n - 1) by lia.
      rewrite Hl.
      pose proof (Z.mul_div_le R (n - 1) ltac:(lia)).
      pose proof (Z.mod_pos_bound R (n - 1) ltac:(lia)).
      pose proof (Z.div_mod R (n - 1) ltac:(lia)). lia. }
  assert (HF0 : 0 <= F).
  { apply sumZ_nonneg. apply Forall_forall. intros z Hz.
    apply in_map_iff in Hz as (c' & <- & Hin). apply (Hg c' Hin). }
  assert (Hused : sum64 (map g pre ++ target :: map g post) = target + F).
  { unfold sum64. rewrite sum64_spec by (unfold int_min, int_max; lia).
    rewrite sumZ_app, sumZ_cons.
    assert (HFe : F = sumZ (map g pre) + sumZ (map g post))
      by (unfold F; now rewrite map_app, sumZ_app).
    rewrite wrap64_id by (unfold int_min, int_max; lia). lia. }
  assert (Hlen_g : List.length (map g pre) = i) by (now rewrite length_map).
  assert (Hsizes :
    (if sum64 (map g pre ++ target :: map g post) =? available
     then map g pre ++ target :: map g post
     else set_nth i (add64 (nth i (map g pre ++ target :: map g post) 0)
                      (sub64 available (sum64 (map g pre ++ target :: map g post))))
            (map g pre ++ target :: map g post)) =
    map g pre ++ (available - F) :: map g post).
  { rewrite Hused. rewrite <- Hlen_g.
    rewrite nth_middle, set_nth_middle.
    destruct (Z.eqb_spec (target + F) available).
    - do 2 f_equal. lia.
    - do 2 f_equal. unfold add64, sub64.
      rewrite (wrap64_id (available - (target + F))) by (unfold int_min, int_max; lia).
      rewrite wrap64_id by (unfold int_min, int_max; lia). lia. }
  rewrite Hsizes. eexists. split; [reflexivity|].
  split; [rewrite !length_app; cbn [List.length]; now rewrite !length_map|].
  split.
  - apply Forall_app. split; [|constructor; [lia|]];
      apply Forall_forall; intros z Hz; apply in_map_iff in Hz as (c' & <- & Hin);
      apply (Hg c'); apply in_or_app; auto.
  - rewrite sumZ_app, sumZ_cons.
    assert (HFe : F = sumZ (map g pre) + sumZ (map g post))
      by (unfold F; now rewrite map_app, sumZ_app).
    lia.
Qed.

Lemma pos_set_pos ax n v : pos_along ax (set_pos ax n v) = v.
Proof. destruct n, ax; reflexivity. Qed.

Lemma pos_set_size ax ax' n v : pos_along ax' (set_size ax n v) = pos_along ax' n.
Proof. destruct n, ax, ax'; reflexivity. Qed.

Lemma pos_update_child_size ax ax' n v : pos_along ax' (update_child_size ax n v) = pos_along ax' n.
Proof. destruct n. cbn [update_child_size]. rewrite pos_set_size. destruct ax'; reflexivity. Qed.

Lemma size_other_set_size ax n v : size_along (other_axis ax) (set_size ax n v) = size_along (other_axis ax) n.
Proof. destruct n, ax; reflexivity. Qed.

Lemma size_other_update_child_size ax n v :
  size_along (other_axis ax) (update_child_size ax n v) = size_along (other_axis ax) n.
Proof. destruct n. cbn [update_child_size]. rewrite size_other_set_size. destruct ax; reflexivity. Qed.

Lemma pos_other_set_pos ax n v : pos_along (other_axis ax) (set_pos ax n v) = pos_along (other_axis ax) n.
Proof. destruct n, ax; reflexivity. Qed.

Lemma size_other_set_pos ax n v : size_along (other_axis ax) (set_pos ax n v) = size_along (other_axis ax) n.
Proof. destruct n, ax; reflexivity. Qed.

Lemma place_tiled ax cs : forall sizes cur stop,
  List.length cs = List.length sizes -> Forall (fun z => 0 <= z) sizes ->
  0 <= cur -> cur + sumZ sizes + Z.of_nat (List.length sizes) <= int_max ->
  stop = cur + sumZ sizes + Z.of_nat (List.length sizes) - 1 ->
  tiled ax cur (place ax cur cs sizes) stop = true.
Proof.
  induction cs as [|c cs IH]; intros [|s ss] cur stop Hlen Hnn Hlo Hhi Hstop;
    cbn [List.length] in *; try discriminate.
  - cbn. unfold sumZ in Hstop. cbn in Hstop. apply Z.eqb_eq. lia.
  - inversion Hnn as [|? ? Hs Hss]; subst. cbn [place tiled].
    rewrite sumZ_cons in *. pose proof (sumZ_nonneg ss Hss).
    rewrite pos_update_child_size, pos_set_pos, size_update_child_size, Z.eqb_refl. cbn [andb].
    assert (E : add64 cur (add64 s 1) = cur + s + 1).
    { unfold add64. rewrite (wrap64_id (s + 1)) by (unfold int_min, int_max in *; lia).
      rewrite wrap64_id by (unfold int_min, int_max in *; lia). ring. }
    rewrite E. apply IH; [lia | exact Hss | lia | lia | lia].
Qed.

Lemma place_other ax cs : forall sizes cur,
  map (size_along (other_axis ax)) (place ax cur cs sizes) = map (size_along (other_axis ax)) cs /\
  map (pos_along (other_axis ax)) (place ax cur cs sizes) = map (pos_along (other_axis ax)) cs.
Proof.
  induction cs as [|c cs IH]; intros [|s ss] cur; cbn [place map]; try (split; reflexivity).
  destruct (IH ss (add64 cur (add64 s 1))) as [H1 H2]. rewrite H1, H2.
  rewrite size_other_update_child_size, size_other_set_pos, size_other_set_size.
  rewrite pos_update_child_size, pos_other_set_pos.
  split; [reflexivity|]. destruct c, ax; reflexivity.
Qed.

(** * Further properties of the code *)

(** ** Numbers: [%d] and [strconv.Atoi] *)

(** Every [int] the printer writes with [%d] is read back by [strconv.Atoi]
    as the same number. *)
Theorem Atoi_Itoa_roundtrip (z : Z) :
  int_min <= z <= int_max -> Atoi (Itoa z) = Some z.
Proof. intros Hz. exact (proj1 (Itoa_spec z Hz)). Qed.

Lemma Atoi_Itoa_roundtrip_witness : Atoi (Itoa (-9223372036854775808)) = Some (-9223372036854775808).
Proof. apply Atoi_Itoa_roundtrip. unfold int_min, int_max. lia. Defined.

(** ** The checksum field *)

Lemma spec_hex_digit_hex d : 0 <= d < 16 -> is_lower_hex (spec_hex_digit d) = true.
Proof.
  intros Hd. unfold spec_hex_digit.
  assert (Hn : (Z.to_nat d < 16)%nat) by lia. revert Hn. generalize (Z.to_nat d) as n.
  intros n Hn. do 16 (destruct n as [|n]; [reflexivity|]). lia.
Qed.

(** [BuildLayout] writes exactly four lowercase hexadecimal digits, a comma
    and the body [buildNodeString] prints. *)
Theorem BuildLayout_format (t : LayoutNode) :
  exists cs, BuildLayout t = (cs ++ "," ++ buildNodeString t)%string /\
    String.length cs = 4%nat /\ str_forall is_lower_hex cs = true.
Proof.
  exists (calculateChecksum (buildNodeString t)). split; [reflexivity|].
  unfold calculateChecksum, checksum_value.
  destruct (csum_loop_spec (buildNodeString t) 0) as [_ Hr]; [lia|].
  rewrite format_04x_small by exact Hr. unfold spec_hex4. split; [reflexivity|].
  simpl. rewrite !spec_hex_digit_hex by (apply Z.mod_pos_bound; lia). reflexivity.
Qed.

(** [ParseLayout] never reads the checksum: two texts that differ only in
    the field before the first comma parse the same. *)
Theorem ParseLayout_ignores_checksum (c1 c2 body : string) :
  str_forall (fun d => negb (Ascii.eqb d ","%char)) c1 = true ->
  str_forall (fun d => negb (Ascii.eqb d ","%char)) c2 = true ->
  ParseLayout (c1 ++ String "," body) = ParseLayout (c2 ++ String "," body).
Proof.
  intros H1 H2. unfold ParseLayout. now rewrite !cut_at_app.
Qed.

Lemma ParseLayout_ignores_checksum_witness :
  ParseLayout ("0000" ++ String "," "10x10,0,0,1") = ParseLayout ("beef" ++ String "," "10x10,0,0,1").
Proof. apply ParseLayout_ignores_checksum; reflexivity. Defined.

(** ** The tmux queries *)

(** [GetZoomPercent] always gives a percentage between 10 and 95, whatever
    the option holds, and never fails or runs a command. *)
Theorem GetZoomPercent_range (h : Host) (log : list Cmd) :
  exists p, GetZoomPercent h log = (inl p, log) /\ 10 <= p <= 95.
Proof.
  unfold GetZoomPercent. eexists. split; [reflexivity|].
  unfold DefaultZoomPercent.
  destruct (q_zoom_percent_option h) as [[|c r]|]; try lia.
  destruct (Atoi (String c r)) as [p|]; [|lia].
  destruct (Z.ltb_spec p 10); destruct (Z.ltb_spec 95 p); simpl; lia.
Qed.

(** An option value [%d] of a percentage between 10 and 95 is used as is. *)
Theorem GetZoomPercent_option (h : Host) (log : list Cmd) (p : Z) :
  q_zoom_percent_option h = Some (Itoa p) -> 10 <= p <= 95 ->
  GetZoomPercent h log = (inl p, log).
Proof.
  intros Hq Hp. unfold GetZoomPercent. rewrite Hq.
  assert (Hi : int_min <= p <= int_max) by (unfold int_min, int_max; lia).
  destruct (Itoa_spec p Hi) as (Ha & _ & Hne).
  destruct (Itoa p) as [|c r]; [congruence|]. rewrite Ha.
  destruct (Z.ltb_spec p 10); [lia|]. destruct (Z.ltb_spec 95 p); [lia|]. reflexivity.
Qed.

Lemma GetZoomPercent_option_witness :
  GetZoomPercent (mkHost None None None None None (Some "80"%string) (fun _ => true)) [] = (inl 80, []).
Proof. apply (GetZoomPercent_option _ _ 80); [reflexivity | lia]. Defined.

(** [GetActivePaneID] reads the pane id tmux prints as [%N] back as [N],
    and [GetPaneCount] reads back the count; neither runs a command. *)
Theorem GetActivePaneID_GetPaneCount_read (h : Host) (log : list Cmd) (id count : Z) :
  int_min <= id <= int_max -> int_min <= count <= int_max ->
  q_pane_id h = Some (String "%" (Itoa id)) -> q_window_panes h = Some (Itoa count) ->
  GetActivePaneID h log = (inl id, log) /\ GetPaneCount h log = (inl count, log).
Proof.
  intros Hi Hc Hp Hw.
  unfold GetActivePaneID, GetPaneCount, bind, query, from_atoi. rewrite Hp, Hw.
  simpl. rewrite (proj1 (Itoa_spec id Hi)), (proj1 (Itoa_spec count Hc)). split; reflexivity.
Qed.

Lemma GetActivePaneID_GetPaneCount_read_witness :
  GetActivePaneID (mkHost None None (Some "%42"%string) (Some "4"%string) None None (fun _ => true)) [] = (inl 42, []) /\
  GetPaneCount (mkHost None None (Some "%42"%string) (Some "4"%string) None None (fun _ => true)) [] = (inl 4, []).
Proof.
  apply (GetActivePaneID_GetPaneCount_read _ _ 42 4);
    [unfold int_min, int_max; lia | unfold int_min, int_max; lia | reflexivity | reflexivity].
Defined.

(** ** The zoom on trees it does not change *)

(** When the root is a leaf or has at most one child, [ApplyZoomToLayout]
    returns the tree as it is. *)
Theorem ApplyZoomToLayout_small_root (t : LayoutNode) (activePaneID zoomPercent : Z) :
  (SplitTy t = SplitNone \/ (List.length (Children t) <= 1)%nat) ->
  ApplyZoomToLayout t activePaneID zoomPercent = t.
Proof.
  intros H. unfold ApplyZoomToLayout. rewrite copyLayoutNode_id.
  destruct (find_index _ _) as [i|]; [|reflexivity].
  unfold zoom_by_split. destruct t as [w h x y p st cs]. simpl in *.
  destruct H as [-> | Hlen]; [reflexivity|].
  destruct st; [reflexivity| |];
    unfold applyHorizontalZoom, applyVerticalZoom, apply_axis_zoom;
    now rewrite (proj2 (Nat.leb_le _ _) Hlen).
Qed.

Lemma ApplyZoomToLayout_small_root_witness :
  ApplyZoomToLayout (mkLayoutNode 80 24 0 0 (-1) SplitHorizontal [mkLayoutNode 80 24 0 0 3 SplitNone []]) 3 65 =
  mkLayoutNode 80 24 0 0 (-1) SplitHorizontal [mkLayoutNode 80 24 0 0 3 SplitNone []].
Proof. apply ApplyZoomToLayout_small_root. right. simpl. lia. Defined.

Lemma update_first_none {A} (f : A -> bool) g l : existsb f l = false -> update_first f g l = l.
Proof.
  induction l as [|a l IH]; simpl; [reflexivity|].
  intros [-> H]%orb_false_elim. now rewrite IH.
Qed.

(** When no child of the root contains the target pane, the whole zoom
    transform of [ApplyZoom] ([ApplyZoomToLayout] then [applyNestedZoom])
    leaves the tree unchanged. *)
Theorem zoom_transform_absent (t : LayoutNode) (activePaneID zoomPercent : Z) :
  existsb (fun c => containsPane c activePaneID) (Children t) = false ->
  zoom_transform t activePaneID zoomPercent = t.
Proof.
  intros H. unfold zoom_transform, ApplyZoomToLayout. rewrite copyLayoutNode_id.
  rewrite find_index_none by exact H. unfold applyNestedZoom.
  destruct t as [w h x y p st cs]. simpl. now rewrite update_first_none.
Qed.

Lemma zoom_transform_absent_witness :
  zoom_transform (mkLayoutNode 21 10 0 0 (-1) SplitHorizontal
                    [mkLayoutNode 10 10 0 0 1 SplitNone []; mkLayoutNode 10 10 11 0 2 SplitNone []]) 7 65 =
  mkLayoutNode 21 10 0 0 (-1) SplitHorizontal
    [mkLayoutNode 10 10 0 0 1 SplitNone []; mkLayoutNode 10 10 11 0 2 SplitNone []].
Proof. apply zoom_transform_absent. reflexivity. Defined.

(** ** The geometry of the zoom *)

Lemma pos_apply_axis_zoom ax ax' n i p :
  pos_along ax' (apply_axis_zoom ax n i p) = pos_along ax' n.
Proof.
  destruct n as [w h x y q st cs]. unfold apply_axis_zoom.
  destruct (_ <=? 1)%nat; [reflexivity|]. destruct ax'; reflexivity.
Qed.

Lemma pos_zoom_by_split ax n i p : pos_along ax (zoom_by_split n i p) = pos_along ax n.
Proof.
  unfold zoom_by_split. destruct (SplitTy n); [reflexivity | apply pos_apply_axis_zoom..].
Qed.

Lemma pos_nested_zoom ax f n id p : pos_along ax (nested_zoom f n id p) = pos_along ax n.
Proof. destruct f, n, ax; reflexivity. Qed.

Lemma map_pos_update_first ax (f : LayoutNode -> bool) g l :
  (forall a, pos_along ax (g a) = pos_along ax a) ->
  map (pos_along ax) (update_first f g l) = map (pos_along ax) l.
Proof.
  intros Hg. induction l as [|a l IH]; simpl; [reflexivity|].
  destruct (f a); simpl; now rewrite ?Hg, ?IH.
Qed.

Lemma children_pos_nested_zoom ax f n id p :
  map (pos_along ax) (Children (nested_zoom f n id p)) = map (pos_along ax) (Children n).
Proof.
  destruct f as [|f]; [reflexivity|]. destruct n as [w h x y q st cs]. cbn [nested_zoom Children].
  apply map_pos_update_first. intros a.
  destruct (1 <? List.length (Children a))%nat; [|reflexivity].
  destruct (find_index _ _); [|reflexivity].
  now rewrite pos_nested_zoom, pos_zoom_by_split.
Qed.

Lemma tiled_ext ax cs : forall cs' cur stop,
  map (size_along ax) cs = map (size_along ax) cs' ->
  map (pos_along ax) cs = map (pos_along ax) cs' ->
  tiled ax cur cs stop = tiled ax cur cs' stop.
Proof.
  induction cs as [|c cs IH]; intros [|c' cs'] cur stop Hs Hp; try discriminate; [reflexivity|].
  injection Hs as Hs1 Hs2. injection Hp as Hp1 Hp2. cbn [tiled].
  rewrite Hs1, Hp1, (IH cs' _ _ Hs2 Hp2). reflexivity.
Qed.

Lemma zoom_transform_root_split ax t id p i :
  SplitTy t = split_along ax ->
  find_index (fun c => containsPane c id) (Children t) = Some i ->
  (forall ax', map (size_along ax') (Children (zoom_transform t id p)) =
               map (size_along ax') (Children (apply_axis_zoom ax t i p))) /\
  (forall ax', map (pos_along ax') (Children (zoom_transform t id p)) =
               map (pos_along ax') (Children (apply_axis_zoom ax t i p))).
Proof.
  intros Hst Hfind. unfold zoom_transform, applyNestedZoom, ApplyZoomToLayout.
  rewrite copyLayoutNode_id, Hfind. unfold zoom_by_split. rewrite Hst.
  split; intros ax';
    [rewrite children_sizes_nested_zoom | rewrite children_pos_nested_zoom]; destruct ax; reflexivity.
Qed.

(** At the root split along [ax], when the target pane lies in one of at
    least two children of non-negative sizes that fill the split, the
    percent is between 0 and 100 and the root lies between 0 and [2^31],
    the zoom transform lays the children out edge to edge: the first
    starts at the root's position, each next one starts one border cell
    after the end of the previous one, and the last ends where the root
    ends. *)
Theorem zoom_transform_tiles (ax : Axis) (t : LayoutNode) (activePaneID zoomPercent : Z) (i : nat) :
  SplitTy t = split_along ax ->
  find_index (fun c => containsPane c activePaneID) (Children t) = Some i ->
  (2 <= List.length (Children t))%nat ->
  0 <= zoomPercent <= 100 ->
  Forall (fun c => 0 <= size_along ax c) (Children t) ->
  sumZ (map (size_along ax) (Children t)) + (Z.of_nat (List.length (Children t)) - 1) =
    size_along ax t ->
  0 <= pos_along ax t -> pos_along ax t + size_along ax t < 2 ^ 31 ->
  tiled ax (pos_along ax t) (Children (zoom_transform t activePaneID zoomPercent))
    (pos_along ax t + size_along ax t) = true.
Proof.
  intros Hst Hfind H2 Hp Hpos Hcons Hx Hbig.
  destruct (zoom_transform_root_split ax t activePaneID zoomPercent i Hst Hfind) as [Hs Hq].
  rewrite (tiled_ext _ _ _ _ _ (Hs ax) (Hq ax)).
  destruct (apply_axis_zoom_children ax t i zoomPercent H2 (find_index_lt _ _ _ Hfind) Hp Hpos Hcons
              ltac:(lia)) as (sizes & Hc & Hlen & Hnn & Hsum).
  rewrite Hc. apply place_tiled; [symmetry; exact Hlen | exact Hnn | exact Hx | |];
    rewrite Hsum, Hlen; unfold int_max; lia.
Qed.

Lemma zoom_transform_tiles_witness :
  let t := mkLayoutNode 255 61 0 0 (-1) SplitHorizontal
          [mkLayoutNode 84 61 0 0 (-1) SplitVertical
             [mkLayoutNode 84 30 0 0 26 SplitNone [];
              mkLayoutNode 84 30 0 31 41 SplitNone []];
           mkLayoutNode 85 61 85 0 36 SplitNone [];
           mkLayoutNode 84 61 171 0 42 SplitNone []] in
  tiled AxisWidth (pos_along AxisWidth t) (Children (zoom_transform t 36 65))
    (pos_along AxisWidth t + size_along AxisWidth t) = true.
Proof.
  intros t.
  apply (zoom_transform_tiles AxisWidth t 36 65 1);
    [reflexivity | reflexivity | simpl; lia | lia | repeat constructor; discriminate
    | reflexivity | simpl; lia | simpl; lia].
Defined.

(** The zoom transform keeps the root's size and position on both axes;
    at a root split along [ax] it keeps every child's size and position
    across [ax] (only the split axis is redistributed). *)
Theorem zoom_transform_geometry (ax : Axis) (t : LayoutNode) (activePaneID zoomPercent : Z) :
  SplitTy t = split_along ax ->
  (forall ax', size_along ax' (zoom_transform t activePaneID zoomPercent) = size_along ax' t /\
               pos_along ax' (zoom_transform t activePaneID zoomPercent) = pos_along ax' t) /\
  map (size_along (other_axis ax)) (Children (zoom_transform t activePaneID zoomPercent)) =
    map (size_along (other_axis ax)) (Children t) /\
  map (pos_along (other_axis ax)) (Children (zoom_transform t activePaneID zoomPercent)) =
    map (pos_along (other_axis ax)) (Children t).
Proof.
  intros Hst. split.
  { intros ax'. unfold zoom_transform, applyNestedZoom, ApplyZoomToLayout.
    rewrite size_nested_zoom, pos_nested_zoom, copyLayoutNode_id.
    destruct (find_index _ _); [|split; reflexivity].
    rewrite size_zoom_by_split, pos_zoom_by_split. split; reflexivity. }
  destruct (find_index (fun c => containsPane c activePaneID) (Children t)) as [i|] eqn:Hfind.
  - destruct (zoom_transform_root_split ax t activePaneID zoomPercent i Hst Hfind) as [Hs Hq].
    rewrite Hs, Hq. destruct t as [w h x y q st cs]. unfold apply_axis_zoom. cbn [Children].
    destruct (_ <=? 1)%nat; [split; reflexivity|]. cbn [Children]. apply place_other.
  - unfold zoom_transform, applyNestedZoom, ApplyZoomToLayout.
    rewrite copyLayoutNode_id, Hfind.
    rewrite children_sizes_nested_zoom, children_pos_nested_zoom. split; reflexivity.
Qed.

Lemma zoom_transform_geometry_witness :
  map (size_along AxisHeight)
    (Children (zoom_transform
       (mkLayoutNode 21 10 0 0 (-1) SplitHorizontal
          [mkLayoutNode 10 10 0 0 1 SplitNone []; mkLayoutNode 10 10 11 0 2 SplitNone []]) 2 65)) =
  [10; 10].
Proof.
  destruct (zoom_transform_geometry AxisWidth
              (mkLayoutNode 21 10 0 0 (-1) SplitHorizontal
                 [mkLayoutNode 10 10 0 0 1 SplitNone []; mkLayoutNode 10 10 11 0 2 SplitNone []]) 2 65
              eq_refl) as (_ & Hs & _).
  exact Hs.
Defined.

(** ** The commands [ApplyZoom] issues *)

Lemma ParseLayout_empty : ParseLayout EmptyString = Err "invalid layout: no checksum separator"%string.
Proof. reflexivity. Qed.

Lemma RestoreSnapshot_parsed state t :
  ParseLayout (Snapshot state) = Ok t -> RestoreSnapshot state = SelectLayout (Snapshot state).
Proof.
  intros H. unfold RestoreSnapshot. destruct (Snapshot state) as [|c r]; [discriminate|]. reflexivity.
Qed.

(** In a window of more than one pane, with the saved session and window
    current and the active pane id readable: when the saved snapshot
    parses and still has as many panes as the window, [ApplyZoom] issues exactly one command, [select-layout] with
    the zoomed snapshot; if tmux rejects it, it selects the saved snapshot
    again and returns the error.  The fallback is not used. *)
Theorem ApplyZoom_select_zoomed (applyZoomFallback : State -> Z -> M unit) (state : State)
    (h : Host) (log : list Cmd) (panes : string) (paneCount activePaneID zoomPercent : Z)
    (tree : LayoutNode) :
  q_window_panes h = Some panes -> Atoi panes = Some paneCount -> 1 < paneCount ->
  q_session_name h = Some (Session state) -> q_window_index h = Some (Window state) ->
  GetActivePaneID h log = (inl activePaneID, log) ->
  GetZoomPercent h log = (inl zoomPercent, log) ->
  ParseLayout (Snapshot state) = Ok tree -> countPanes tree = paneCount ->
  let newLayout := BuildLayout (zoom_transform tree activePaneID zoomPercent) in
  ApplyZoom applyZoomFallback state h log =
    if cmd_succeeds h (CmdSelectLayout newLayout)
    then (inl tt, log ++ [CmdSelectLayout newLayout])
    else (inr "command failed"%string,
          log ++ [CmdSelectLayout newLayout; CmdSelectLayout (Snapshot state)]).
Proof.
  intros Hq Ha H1 Hs Hw Hid Hzp Hparse Hcount newLayout.
  cbv beta delta [ApplyZoom bind GetPaneCount query from_atoi ret GetCurrentSession GetCurrentWindow].
  rewrite Hq, Ha. replace (paneCount <=? 1) with false by (symmetry; apply Z.leb_gt; lia).
  rewrite Hs, Hw, !String.eqb_refl. cbn [negb orb].
  rewrite Hid, Hparse, Hcount, Z.eqb_refl. rewrite Hzp. fold newLayout.
  unfold catch, SelectLayout, run, ignore. rewrite (RestoreSnapshot_parsed _ _ Hparse).
  unfold SelectLayout, run, fail.
  destruct (cmd_succeeds h (CmdSelectLayout newLayout)); [reflexivity|].
  now rewrite <- app_assoc.
Qed.

Lemma ApplyZoom_select_zoomed_witness :
  let h := mkHost (Some "main"%string) (Some "1"%string) (Some "%2"%string) (Some "2"%string)
             None None (fun _ => true) in
  let state := mkState true "main" "1" "abcd,21x10,0,0{10x10,0,0,1,10x10,11,0,2}" in
  let tree := mkLayoutNode 21 10 0 0 (-1) SplitHorizontal
                [mkLayoutNode 10 10 0 0 1 SplitNone []; mkLayoutNode 10 10 11 0 2 SplitNone []] in
  let newLayout := BuildLayout (zoom_transform tree 2 65) in
  ApplyZoom (fun _ _ => ret tt) state h [] =
    if cmd_succeeds h (CmdSelectLayout newLayout)
    then (inl tt, [] ++ [CmdSelectLayout newLayout])
    else (inr "command failed"%string, [] ++ [CmdSelectLayout newLayout; CmdSelectLayout (Snapshot state)]).
Proof.
  intros h state tree newLayout.
  apply (ApplyZoom_select_zoomed _ state h [] "2" 2 2 65 tree);
    [reflexivity | reflexivity | lia | reflexivity | reflexivity | reflexivity | reflexivity
    | vm_compute; reflexivity | reflexivity].
Defined.

(** In a window of more than one pane, with the saved session and window
    current and the active pane id readable: when the saved snapshot
    parses but no longer has as many panes as the window, and the current
    layout parses and saving it succeeds, [ApplyZoom] captures the
    current layout, saves it as the new snapshot (keeping the session and
    window), and selects the zoomed
    current layout; if tmux rejects that, it selects the new snapshot
    again and returns the error. *)
Theorem ApplyZoom_resnapshot (applyZoomFallback : State -> Z -> M unit) (state : State)
    (h : Host) (log : list Cmd) (panes layout : string) (paneCount activePaneID zoomPercent : Z)
    (tree tree' : LayoutNode) :
  q_window_panes h = Some panes -> Atoi panes = Some paneCount -> 1 < paneCount ->
  q_session_name h = Some (Session state) -> q_window_index h = Some (Window state) ->
  GetActivePaneID h log = (inl activePaneID, log) ->
  (forall l, GetZoomPercent h l = (inl zoomPercent, l)) ->
  ParseLayout (Snapshot state) = Ok tree -> countPanes tree <> paneCount ->
  q_window_layout h = Some layout -> ParseLayout layout = Ok tree' ->
  let newState := mkState true (Session state) (Window state) layout in
  cmd_succeeds h (CmdSaveState newState) = true ->
  let newLayout := BuildLayout (zoom_transform tree' activePaneID zoomPercent) in
  ApplyZoom applyZoomFallback state h log =
    if cmd_succeeds h (CmdSelectLayout newLayout)
    then (inl tt, log ++ [CmdSaveState newState; CmdSelectLayout newLayout])
    else (inr "command failed"%string,
          log ++ [CmdSaveState newState; CmdSelectLayout newLayout; CmdSelectLayout layout]).
Proof.
  intros Hq Ha H1 Hs Hw Hid Hzp Hparse Hcount Hl Hparse' newState Hsave newLayout.
  cbv beta delta [ApplyZoom bind GetPaneCount query from_atoi ret GetCurrentSession GetCurrentWindow].
  rewrite Hq, Ha. replace (paneCount <=? 1) with false by (symmetry; apply Z.leb_gt; lia).
  rewrite Hs, Hw, !String.eqb_refl. cbn [negb orb].
  rewrite Hid, Hparse. replace (countPanes tree =? paneCount) with false
    by (symmetry; apply Z.eqb_neq; exact Hcount).
  cbv beta delta [CaptureSnapshot bind GetCurrentSession GetCurrentWindow GetWindowLayout query ret].
  rewrite Hs, Hw, Hl. cbn [Snapshot Session Window Enabled].
  unfold SaveState, run. fold newState. rewrite Hsave. cbn [Snapshot]. rewrite Hparse'.
  rewrite Hzp. fold newLayout.
  unfold catch, SelectLayout, run, ignore.
  rewrite (RestoreSnapshot_parsed (mkState (Enabled state) (Session state) (Window state) layout) tree' Hparse').
  unfold SelectLayout, run, fail. cbn [Snapshot].
  destruct (cmd_succeeds h (CmdSelectLayout newLayout)); now rewrite <- !app_assoc.
Qed.

Lemma ApplyZoom_resnapshot_witness :
  let h := mkHost (Some "main"%string) (Some "1"%string) (Some "%2"%string) (Some "2"%string)
             (Some "abcd,21x10,0,0{10x10,0,0,1,10x10,11,0,2}"%string) None (fun _ => true) in
  let state := mkState true "main" "1" "abcd,10x10,0,0,1" in
  let tree' := mkLayoutNode 21 10 0 0 (-1) SplitHorizontal
                 [mkLayoutNode 10 10 0 0 1 SplitNone []; mkLayoutNode 10 10 11 0 2 SplitNone []] in
  let newState := mkState true "main" "1" "abcd,21x10,0,0{10x10,0,0,1,10x10,11,0,2}" in
  let newLayout := BuildLayout (zoom_transform tree' 2 65) in
  ApplyZoom (fun _ _ => ret tt) state h [] =
    if cmd_succeeds h (CmdSelectLayout newLayout)
    then (inl tt, [] ++ [CmdSaveState newState; CmdSelectLayout newLayout])
    else (inr "command failed"%string,
          [] ++ [CmdSaveState newState; CmdSelectLayout newLayout;
                 CmdSelectLayout "abcd,21x10,0,0{10x10,0,0,1,10x10,11,0,2}"]).
Proof.
  intros h state tree' newState newLayout.
  apply (ApplyZoom_resnapshot _ state h [] "2" "abcd,21x10,0,0{10x10,0,0,1,10x10,11,0,2}" 2 2 65
           (mkLayoutNode 10 10 0 0 1 SplitNone []) tree');
    [reflexivity | reflexivity | lia | reflexivity | reflexivity | reflexivity | intros; reflexivity
    | vm_compute; reflexivity | vm_compute; discriminate | reflexivity | vm_compute; reflexivity
    | reflexivity].
Defined.

(** In a window of more than one pane, with the saved session and window
    current and the active pane id readable: when the saved snapshot does
    not parse, [ApplyZoom] first selects the
    snapshot again (nothing when it is empty); if tmux rejects it, it
    clears the state, tells the user the zoom is disabled and returns the
    error without running the fallback; otherwise it runs the fallback. *)
Theorem ApplyZoom_unparsed_snapshot (applyZoomFallback : State -> Z -> M unit) (state : State)
    (h : Host) (log : list Cmd) (panes : string) (paneCount activePaneID : Z) :
  q_window_panes h = Some panes -> Atoi panes = Some paneCount -> 1 < paneCount ->
  q_session_name h = Some (Session state) -> q_window_index h = Some (Window state) ->
  GetActivePaneID h log = (inl activePaneID, log) ->
  (forall t, ParseLayout (Snapshot state) <> Ok t) ->
  ApplyZoom applyZoomFallback state h log =
    if String.eqb (Snapshot state) EmptyString then applyZoomFallback state activePaneID h log
    else if cmd_succeeds h (CmdSelectLayout (Snapshot state))
    then applyZoomFallback state activePaneID h (log ++ [CmdSelectLayout (Snapshot state)])
    else (inr "command failed"%string,
          log ++ [CmdSelectLayout (Snapshot state); CmdClearState;
                  CmdDisplayMessage "Focus zoom: disabled (layout changed)"]).
Proof.
  intros Hq Ha H1 Hs Hw Hid Hparse.
  cbv beta delta [ApplyZoom bind GetPaneCount query from_atoi ret GetCurrentSession GetCurrentWindow].
  rewrite Hq, Ha. replace (paneCount <=? 1) with false by (symmetry; apply Z.leb_gt; lia).
  rewrite Hs, Hw, !String.eqb_refl. cbn [negb orb].
  rewrite Hid.
  destruct (ParseLayout (Snapshot state)) as [t| |] eqn:E; [exfalso; exact (Hparse t eq_refl)| |];
  unfold catch, RestoreSnapshot, SelectLayout, run, ignore, ClearState, DisplayMessage, fail, ret;
  destruct (String.eqb (Snapshot state) EmptyString); try reflexivity;
  destruct (cmd_succeeds h (CmdSelectLayout (Snapshot state))); try reflexivity;
  unfold run; now rewrite <- !app_assoc.
Qed.

Lemma ApplyZoom_unparsed_snapshot_witness :
  let h := mkHost (Some "main"%string) (Some "1"%string) (Some "%2"%string) (Some "2"%string)
             None None (fun c => match c with CmdSelectLayout _ => false | _ => true end) in
  let state := mkState true "main" "1" "bad" in
  ApplyZoom (fun _ _ => ret tt) state h [] =
    if String.eqb (Snapshot state) EmptyString then ret tt h []
    else if cmd_succeeds h (CmdSelectLayout (Snapshot state))
    then ret tt h ([] ++ [CmdSelectLayout (Snapshot state)])
    else (inr "command failed"%string,
          [] ++ [CmdSelectLayout (Snapshot state); CmdClearState;
                 CmdDisplayMessage "Focus zoom: disabled (layout changed)"]).
Proof.
  intros h state.
  apply (ApplyZoom_unparsed_snapshot (fun _ _ => ret tt) state h [] "2" 2 2);
    [reflexivity | reflexivity | lia | reflexivity | reflexivity | reflexivity
    | intros t; vm_compute; discriminate].
Defined.

(** ** [GetPanes] *)

Lemma digits_value_mono s : forall acc n,
  0 <= acc -> digits_value acc s = Some n -> acc <= n.
Proof.
  induction s as [|c s IH]; intros acc n Hacc H; simpl in H.
  - injection H as <-. lia.
  - destruct (is_digit c) eqn:Hd; [|discriminate].
    assert (0 <= digit_value c).
    { unfold is_digit in Hd. apply andb_prop in Hd as [H1 _]. apply Nat.leb_le in H1.
      unfold digit_value. lia. }
    specialize (IH (acc * 10 + digit_value c) n ltac:(nia) H). nia.
Qed.

Lemma parse_uint10_digits s : forall acc n,
  0 <= acc -> digits_value acc s = Some n -> n <= 2 ^ 64 - 1 -> parse_uint10 acc s = UintOk n.
Proof.
  induction s as [|c s IH]; intros acc n Hacc H Hn; simpl in H |- *.
  - now injection H as <-.
  - destruct (is_digit c) eqn:Hd; [|discriminate].
    assert (0 <= digit_value c).
    { unfold is_digit in Hd. apply andb_prop in Hd as [H1 _]. apply Nat.leb_le in H1.
      unfold digit_value. lia. }
    pose proof (digits_value_mono s (acc * 10 + digit_value c) n ltac:(nia) H).
    destruct (Z.ltb_spec 18446744073709551615 (acc * 10 + digit_value c)); [lia|].
    apply IH; [nia | exact H | exact Hn].
Qed.

(** [x, _ := strconv.Atoi(s)] is the number [Atoi] accepts. *)
Lemma atoi_value_Atoi s v : Atoi s = Some v -> atoi_value s = v.
Proof.
  unfold Atoi, atoi_value. intros H.
  destruct (match s with
            | String c r => if Ascii.eqb c "-"%char then (true, r)
                            else if Ascii.eqb c "+"%char then (false, r) else (false, s)
            | EmptyString => (false, s) end) as [neg ds].
  destruct ds as [|c r]; [discriminate|].
  destruct (digits_value 0 (String c r)) as [n|] eqn:Hdv; [|discriminate].
  destruct ((int_min <=? (if neg then - n else n)) && ((if neg then - n else n) <=? int_max))
    eqn:Hr; [|discriminate].
  injection H as <-. apply andb_prop in Hr as [H1 H2]. apply Z.leb_le in H1, H2.
  unfold int_min, int_max in *.
  rewrite (parse_uint10_digits _ 0 n) by (lia || exact Hdv || (destruct neg; lia)).
  destruct neg.
  - destruct (Z.ltb_spec (2 ^ 63) n); lia.
  - destruct (Z.leb_spec (2 ^ 63) n); lia.
Qed.

Lemma split_on_app c a b :
  no_byte c a = true -> split_on c (a ++ String c b) = a :: split_on c b.
Proof.
  unfold no_byte. induction a as [|d a IH]; simpl; intros H.
  - now rewrite Ascii.eqb_refl.
  - apply andb_prop in H as [Hd Ha]. apply negb_true_iff in Hd. rewrite Hd, (IH Ha). reflexivity.
Qed.

Lemma split_on_none c a : no_byte c a = true -> split_on c a = [a].
Proof.
  unfold no_byte. induction a as [|d a IH]; simpl; intros H; [reflexivity|].
  apply andb_prop in H as [Hd Ha]. apply negb_true_iff in Hd. rewrite Hd, (IH Ha). reflexivity.
Qed.

Lemma no_byte_app c a b : no_byte c (a ++ b) = no_byte c a && no_byte c b.
Proof. apply str_forall_app. Qed.

Lemma no_byte_Itoa z c :
  int_min <= z <= int_max -> is_num_char c = false -> no_byte c (Itoa z) = true.
Proof.
  intros Hz Hc. destruct (Itoa_spec z Hz) as (_ & Hn & _).
  unfold no_byte. revert Hn. apply str_forall_impl. intros d Hd.
  apply negb_true_iff. destruct (Ascii.eqb_spec d c); [subst; congruence | reflexivity].
Qed.

Lemma atoi_value_Itoa z : int_min <= z <= int_max -> atoi_value (Itoa z) = z.
Proof. intros Hz. apply atoi_value_Atoi, (proj1 (Itoa_spec z Hz)). Qed.

Lemma split_list_panes_line p :
  pane_in_int p = true -> no_byte ":"%char (Pane.ID p) = true ->
  split_on ":"%char (list_panes_line p) =
  [Pane.ID p; Itoa (Pane.Index p); Itoa (Pane.Width p); Itoa (Pane.Height p);
   Itoa (Pane.Left p); Itoa (Pane.Top p); if Pane.Active p then "1" else "0"]%string.
Proof.
  intros Hi Hid. destruct p as [id i w hh l t a]. unfold pane_in_int in Hi.
  cbn [forallb Pane.ID Pane.Index Pane.Width Pane.Height Pane.Left Pane.Top] in Hi.
  rewrite !andb_true_iff, !Z.leb_le in Hi.
  destruct Hi as ((? & ?) & (? & ?) & (? & ?) & (? & ?) & (? & ?) & _).
  unfold list_panes_line. cbn [Pane.ID Pane.Index Pane.Width Pane.Height Pane.Left Pane.Top Pane.Active].
  assert (HI : forall z, int_min <= z -> z <= int_max -> no_byte ":"%char (Itoa z) = true)
    by (intros; apply no_byte_Itoa; [lia | reflexivity]).
  cbn [String.append].
  rewrite split_on_app by exact Hid.
  rewrite split_on_app by (apply HI; assumption).
  rewrite split_on_app by (apply HI; assumption).
  rewrite split_on_app by (apply HI; assumption).
  rewrite split_on_app by (apply HI; assumption).
  rewrite split_on_app by (apply HI; assumption).
  now destruct a.
Qed.

Lemma no_byte_list_panes_line c p :
  pane_in_int p = true -> no_byte c (Pane.ID p) = true -> is_num_char c = false ->
  Ascii.eqb c ":"%char = false -> Ascii.eqb c "1"%char = false -> Ascii.eqb c "0"%char = false ->
  no_byte c (list_panes_line p) = true.
Proof.
  intros Hi Hid Hc Hcolon H1 H0. destruct p as [id i w hh l t a]. unfold pane_in_int in Hi.
  cbn [forallb Pane.ID Pane.Index Pane.Width Pane.Height Pane.Left Pane.Top] in Hi.
  rewrite !andb_true_iff, !Z.leb_le in Hi.
  destruct Hi as ((? & ?) & (? & ?) & (? & ?) & (? & ?) & (? & ?) & _).
  unfold list_panes_line. cbn [Pane.ID Pane.Index Pane.Width Pane.Height Pane.Left Pane.Top Pane.Active].
  cbn [String.append] in Hid |- *.
  assert (Hcol : forall s, no_byte c (String ":" s) = no_byte c s).
  { intros s. unfold no_byte. cbn [str_forall]. rewrite Ascii.eqb_sym, Hcolon. reflexivity. }
  cbn [Pane.ID] in Hid. repeat progress (rewrite ?no_byte_app, ?Hcol).
  rewrite !no_byte_Itoa by (lia || exact Hc). rewrite Hid. destruct a; unfold no_byte; cbn [str_forall]; rewrite Ascii.eqb_sym;
    [rewrite H1 | rewrite H0]; reflexivity.
Qed.

Lemma panes_of_lines_line p rest :
  pane_in_int p = true -> no_byte ":"%char (Pane.ID p) = true ->
  panes_of_lines (list_panes_line p :: rest) = p :: panes_of_lines rest.
Proof.
  intros Hi Hid. cbn [panes_of_lines].
  replace (String.eqb (list_panes_line p) EmptyString) with false
    by (destruct p as [[|c id] ? ? ? ? ? ?]; reflexivity).
  rewrite (split_list_panes_line p Hi Hid). f_equal.
  destruct p as [id i w hh l t a]. unfold pane_in_int in Hi.
  cbn [forallb Pane.ID Pane.Index Pane.Width Pane.Height Pane.Left Pane.Top] in Hi.
  rewrite !andb_true_iff, !Z.leb_le in Hi.
  destruct Hi as ((? & ?) & (? & ?) & (? & ?) & (? & ?) & (? & ?) & _).
  cbn [Pane.ID Pane.Index Pane.Width Pane.Height Pane.Left Pane.Top Pane.Active].
  rewrite !atoi_value_Itoa by lia. now destruct a.
Qed.

(** [GetPanes] reads back what [list-panes] prints: for panes whose ids
    hold no [:] and no newline and whose numbers are [int]s, the printed
    lines joined by newlines parse to the same panes, in order. *)
Theorem GetPanes_roundtrip (fh : FallbackHost) (h : Host) (log : list Cmd)
    (panes : list Pane.PaneInfo) :
  Forall (fun p => pane_in_int p = true /\ no_byte ":"%char (Pane.ID p) = true /\
                   no_byte "010"%char (Pane.ID p) = true) panes ->
  q_list_panes fh = Some (join_lines (map list_panes_line panes)) ->
  GetPanes fh h log = (inl panes, log).
Proof.
  intros Hall Hq. unfold GetPanes, bind, query_answer, ret. rewrite Hq. clear Hq. f_equal. f_equal.
  induction Hall as [|p ps (Hi & Hc & Hn) Hall IH]; [reflexivity|].
  assert (Hl : no_byte "010"%char (list_panes_line p) = true)
    by (apply no_byte_list_panes_line; auto).
  destruct ps as [|p2 ps].
  - cbn [map join_lines]. rewrite split_on_none by exact Hl.
    now rewrite panes_of_lines_line.
  - change (map list_panes_line (p :: p2 :: ps)) with
      (list_panes_line p :: list_panes_line p2 :: map list_panes_line ps).
    change (join_lines (list_panes_line p :: list_panes_line p2 :: map list_panes_line ps)) with
      (list_panes_line p ++ String "010" (join_lines (map list_panes_line (p2 :: ps))))%string.
    rewrite split_on_app by exact Hl.
    rewrite panes_of_lines_line by assumption. now rewrite IH.
Qed.

Lemma GetPanes_roundtrip_witness :
  let panes := [Pane.mkPaneInfo "%1" 0 100 30 0 0 false; Pane.mkPaneInfo "%2" 1 99 30 101 0 true] in
  GetPanes (mkFallbackHost (Some (join_lines (map list_panes_line panes))) None None)
    (mkHost None None None None None None (fun _ => true)) [] = (inl panes, []).
Proof.
  intros panes. apply GetPanes_roundtrip; [|reflexivity].
  repeat constructor.
Defined.

(** ** [findColumns] and [findRowsInColumn] *)

Section Groups.

Variables key size : Pane.PaneInfo -> Z.

(** What the map holds after the panes [seen]: distinct keys; each group
    holds, in order, the panes of [seen] with its key, and its size is
    the largest of theirs; every pane of [seen] has its group. *)
Definition groups_inv (gs : list Group) (seen : list Pane.PaneInfo) : Prop :=
  NoDup (map gkey gs) /\
  (forall g, In g gs ->
     gpanes g = filter (fun p => key p =? gkey g) seen /\ gpanes g <> [] /\
     (forall p, In p (gpanes g) -> size p <= gsize g) /\
     (exists p, In p (gpanes g) /\ size p = gsize g)) /\
  (forall p, In p seen -> exists g, In g gs /\ gkey g = key p).

Lemma group_insert_in p gs g :
  NoDup (map gkey gs) ->
  In g (group_insert key size p gs) ->
  (In g gs /\ gkey g <> key p) \/
  (exists g0, In g0 gs /\ gkey g0 = key p /\
     g = mkGroup (gkey g0) (if gsize g0 <? size p then size p else gsize g0) (gpanes g0 ++ [p])) \/
  ((forall g0, In g0 gs -> gkey g0 <> key p) /\ g = mkGroup (key p) (size p) [p]).
Proof.
  induction gs as [|g1 gs IH]; cbn [group_insert]; intros Hnd.
  - intros [<-|[]]. right. right. split; [intros _ []|reflexivity].
  - cbn [map] in Hnd. inversion Hnd as [|? ? Hnot Hnd']; subst.
    destruct (Z.eqb_spec (gkey g1) (key p)) as [E|E].
    + intros [<-|Hin].
      * right. left. exists g1. split; [left; reflexivity|]. split; [exact E|reflexivity].
      * left. split; [right; exact Hin|]. intros E'. apply Hnot. rewrite E, <- E'.
        now apply in_map.
    + intros [<-|Hin].
      * left. split; [left; reflexivity|exact E].
      * destruct (IH Hnd' Hin) as [[H1 H2]|[(g0 & H1 & H2 & H3)|[H1 H2]]].
        -- left. split; [right|]; assumption.
        -- right. left. exists g0. split; [right; exact H1|]. split; assumption.
        -- right. right. split; [|exact H2]. intros g0 [<-|H0]; [exact E|]. now apply H1.
Qed.

Lemma group_insert_keys p gs k :
  In k (map gkey (group_insert key size p gs)) <-> In k (map gkey gs) \/ k = key p.
Proof.
  induction gs as [|g1 gs IH]; cbn [group_insert map In].
  - cbn. split; [intros [<-|[]]; right; reflexivity | intros [[]|<-]; left; reflexivity].
  - destruct (Z.eqb_spec (gkey g1) (key p)) as [E|E]; cbn [map In gkey].
    + split; [tauto|]. intros [H|H]; [exact H|]. left. congruence.
    + rewrite IH. tauto.
Qed.

Lemma group_insert_nodup p gs :
  NoDup (map gkey gs) -> NoDup (map gkey (group_insert key size p gs)).
Proof.
  induction gs as [|g1 gs IH]; cbn [group_insert map]; intros Hnd.
  - constructor; [intros []|constructor].
  - inversion Hnd as [|? ? Hnot Hnd']; subst.
    destruct (Z.eqb_spec (gkey g1) (key p)) as [E|E]; cbn [map gkey].
    + constructor; [exact Hnot|exact Hnd'].
    + constructor; [|exact (IH Hnd')]. rewrite group_insert_keys. intros [H|H]; [|congruence].
      exact (Hnot H).
Qed.

Lemma filter_app_one (f : Pane.PaneInfo -> bool) l p :
  filter f (l ++ [p]) = filter f l ++ (if f p then [p] else []).
Proof. rewrite filter_app. cbn. now destruct (f p). Qed.

Lemma filter_none {A} (f : A -> bool) l : (forall x, In x l -> f x = false) -> filter f l = [].
Proof.
  induction l as [|a l IH]; intros H; [reflexivity|]. cbn [filter].
  rewrite (H a (or_introl eq_refl)). apply IH. intros x Hx. apply H. now right.
Qed.

Lemma groups_inv_step gs seen p :
  groups_inv gs seen -> groups_inv (group_insert key size p gs) (seen ++ [p]).
Proof.
  intros (Hnd & Hg & Hcov). split; [|split].
  - now apply group_insert_nodup.
  - intros g Hin. rewrite filter_app_one.
    destruct (group_insert_in p gs g Hnd Hin) as [[H1 H2]|[(g0 & H1 & H2 & ->)|[H1 ->]]].
    + destruct (Hg g H1) as (Hf & Hne & Hle & Hex).
      replace (key p =? gkey g) with false by (symmetry; apply Z.eqb_neq; congruence).
      rewrite app_nil_r. repeat split; assumption.
    + destruct (Hg g0 H1) as (Hf & Hne & Hle & Hex). cbn [gpanes gkey gsize].
      rewrite H2, Z.eqb_refl, <- H2, <- Hf. split; [reflexivity|]. split.
      { intros Hnil. apply app_eq_nil in Hnil as [_ Hnil]. discriminate. }
      split.
      * intros q Hq. apply in_app_or in Hq as [Hq|[<-|[]]].
        -- specialize (Hle q Hq). destruct (Z.ltb_spec (gsize g0) (size p)); lia.
        -- destruct (Z.ltb_spec (gsize g0) (size p)); lia.
      * destruct (Z.ltb_spec (gsize g0) (size p)).
        -- exists p. split; [apply in_or_app; right; left; reflexivity|reflexivity].
        -- destruct Hex as (q & Hq & Hs). exists q. split; [apply in_or_app; left; exact Hq|exact Hs].
    + cbn [gpanes gkey gsize]. rewrite Z.eqb_refl.
      replace (filter (fun q => key q =? key p) seen) with (@nil Pane.PaneInfo).
      * split; [reflexivity|]. split; [discriminate|].
        split; [intros q [<-|[]]; lia|]. exists p. split; [left|]; reflexivity.
      * symmetry. apply filter_none. intros q Hq. apply Z.eqb_neq. intros E.
        destruct (Hcov q Hq) as (g0 & Hg0 & Hk). exact (H1 g0 Hg0 (eq_trans Hk E)).
  - intros q Hq. apply in_app_or in Hq as [Hq|[<-|[]]].
    + destruct (Hcov q Hq) as (g0 & Hg0 & Hk).
      assert (Hkin : In (key q) (map gkey (group_insert key size p gs))).
      { apply group_insert_keys. left. rewrite <- Hk. now apply in_map. }
      apply in_map_iff in Hkin as (g & Hk' & Hin). exists g. split; assumption.
    + assert (Hkin : In (key p) (map gkey (group_insert key size p gs)))
        by (apply group_insert_keys; right; reflexivity).
      apply in_map_iff in Hkin as (g & Hk' & Hin). exists g. split; assumption.
Qed.

Lemma group_map_inv panes : groups_inv (group_map key size panes) panes.
Proof.
  unfold group_map. change panes with ([] ++ panes) at 2.
  assert (H0 : groups_inv [] []).
  { split; [constructor|]. split; [intros _ []|intros _ []]. }
  revert H0. generalize (@nil Group) (@nil Pane.PaneInfo).
  induction panes as [|p ps IH]; intros gs seen Hinv; cbn [fold_left].
  - now rewrite app_nil_r.
  - replace (seen ++ p :: ps) with ((seen ++ [p]) ++ ps) by now rewrite <- app_assoc.
    apply IH. now apply groups_inv_step.
Qed.

End Groups.

Lemma insert_by_key_perm g gs : Permutation (insert_by_key g gs) (g :: gs).
Proof.
  induction gs as [|g1 gs IH]; cbn [insert_by_key]; [reflexivity|].
  destruct (gkey g <=? gkey g1); [reflexivity|].
  eapply perm_trans; [apply perm_skip, IH|]. apply perm_swap.
Qed.

Lemma sort_by_key_perm gs : Permutation (sort_by_key gs) gs.
Proof.
  induction gs as [|g gs IH]; cbn [sort_by_key fold_right]; [reflexivity|].
  eapply perm_trans; [apply insert_by_key_perm|]. now apply perm_skip.
Qed.

Lemma insert_by_key_sorted g gs :
  Sorted (fun a b => gkey a <= gkey b) gs ->
  Sorted (fun a b => gkey a <= gkey b) (insert_by_key g gs).
Proof.
  induction 1 as [|g1 gs Hs IH Hhd]; cbn [insert_by_key].
  - repeat constructor.
  - destruct (Z.leb_spec (gkey g) (gkey g1)).
    + constructor; [constructor; assumption|constructor; assumption].
    + constructor; [exact IH|].
      destruct gs as [|g2 gs]; cbn [insert_by_key].
      * constructor. lia.
      * inversion Hhd; subst. destruct (gkey g <=? gkey g2); constructor; lia.
Qed.

Lemma sort_by_key_sorted gs : Sorted (fun a b => gkey a <= gkey b) (sort_by_key gs).
Proof.
  induction gs as [|g gs IH]; cbn [sort_by_key fold_right]; [constructor|].
  now apply insert_by_key_sorted.
Qed.

Lemma sorted_strict gs :
  Sorted (fun a b => gkey a <= gkey b) gs -> NoDup (map gkey gs) ->
  Sorted (fun a b => gkey a < gkey b) gs.
Proof.
  induction 1 as [|g gs Hs IH Hhd]; intros Hnd; [constructor|].
  cbn [map] in Hnd. inversion Hnd as [|? ? Hnot Hnd']; subst.
  constructor; [exact (IH Hnd')|].
  destruct gs as [|g2 gs]; constructor. inversion Hhd; subst.
  assert (gkey g <> gkey g2) by (intros E; apply Hnot; left; congruence). lia.
Qed.

Lemma find_groups_props (key size : Pane.PaneInfo -> Z) (panes : list Pane.PaneInfo) :
  Sorted (fun a b => gkey a < gkey b) (find_groups key size panes) /\
  (forall p, In p panes -> exists g, In g (find_groups key size panes) /\ gkey g = key p) /\
  (forall g, In g (find_groups key size panes) ->
     gpanes g = filter (fun p => key p =? gkey g) panes /\ gpanes g <> [] /\
     (forall p, In p (gpanes g) -> size p <= gsize g) /\
     (exists p, In p (gpanes g) /\ size p = gsize g)).
Proof.
  destruct (group_map_inv key size panes) as (Hnd & Hg & Hcov).
  pose proof (sort_by_key_perm (group_map key size panes)) as Hp. unfold find_groups.
  split; [|split].
  - apply sorted_strict; [apply sort_by_key_sorted|].
    eapply Permutation_NoDup; [apply Permutation_map; symmetry; exact Hp|exact Hnd].
  - intros p Hin. destruct (Hcov p Hin) as (g & Hing & Hk). exists g. split; [|exact Hk].
    eapply Permutation_in; [symmetry; exact Hp|exact Hing].
  - intros g Hin. apply Hg. eapply Permutation_in; [exact Hp|exact Hin].
Qed.

(** [findColumns] groups the panes by left edge and [findRowsInColumn] by
    top edge ([find_groups] with [Left, Width] or [Top, Height]): the
    groups come in strictly increasing key order, every pane lies in the
    group of its key, a group holds exactly the panes with its key in
    their input order (at least one), and its size is the largest size
    among them. *)
Theorem find_groups_spec (key size : Pane.PaneInfo -> Z) (panes : list Pane.PaneInfo) :
  Sorted (fun a b => gkey a < gkey b) (find_groups key size panes) /\
  (forall p, In p panes -> exists g, In g (find_groups key size panes) /\ gkey g = key p) /\
  (forall g, In g (find_groups key size panes) ->
     gpanes g = filter (fun p => key p =? gkey g) panes /\ gpanes g <> [] /\
     (forall p, In p (gpanes g) -> size p <= gsize g) /\
     (exists p, In p (gpanes g) /\ size p = gsize g)).
Proof. exact (find_groups_props key size panes). Qed.

Lemma find_groups_length key size panes :
  List.length (find_groups key size panes) = List.length (nodup Z.eq_dec (map key panes)).
Proof.
  destruct (find_groups_props key size panes) as (Hs & Hcov & Hg).
  assert (Hnd : NoDup (map gkey (find_groups key size panes))).
  { clear Hcov Hg. induction Hs as [|g gs Hs IH Hhd]; cbn [map]; constructor; [|exact IH].
    intros Hin. apply in_map_iff in Hin as (g' & Hk & Hin).
    apply Sorted_StronglySorted in Hs; [|intros a b c; lia].
    assert (Hss : StronglySorted (fun a b => gkey a < gkey b) (g :: gs)).
    { constructor; [exact Hs|]. apply Forall_forall. intros x Hx.
      destruct gs as [|g2 gs]; [destruct Hx|]. inversion Hhd; subst.
      destruct Hx as [<-|Hx]; [assumption|].
      inversion Hs as [|? ? _ Hf]; subst. rewrite Forall_forall in Hf. specialize (Hf x Hx). lia. }
    inversion Hss as [|? ? _ Hf]; subst. rewrite Forall_forall in Hf. specialize (Hf g' Hin). lia. }
  rewrite <- (length_map gkey). apply Nat.le_antisymm; apply NoDup_incl_length.
  - exact Hnd.
  - intros k Hk. apply in_map_iff in Hk as (g & <- & Hin). apply nodup_In.
    destruct (Hg g Hin) as (Hf & Hne & _).
    destruct (gpanes g) as [|p ps] eqn:E; [congruence|].
    assert (Hp : In p (filter (fun p => key p =? gkey g) panes)) by (rewrite <- Hf; left; reflexivity).
    apply filter_In in Hp as [Hp Hk]. apply Z.eqb_eq in Hk. rewrite <- Hk. now apply in_map.
  - apply NoDup_nodup.
  - intros k Hk. apply nodup_In, in_map_iff in Hk as (p & <- & Hp).
    destruct (Hcov p Hp) as (g & Hin & Hk). rewrite <- Hk. now apply in_map.
Qed.

Lemma find_index_exists {A} (f : A -> bool) l x :
  In x l -> f x = true -> exists i y, find_index f l = Some i /\ nth_error l i = Some y /\ f y = true.
Proof.
  induction l as [|a l IH]; intros Hin Hf; [destruct Hin|]. cbn [find_index].
  destruct (f a) eqn:Ha.
  - exists O, a. split; [reflexivity|]. split; [reflexivity|exact Ha].
  - destruct Hin as [<-|Hin]; [congruence|].
    destruct (IH Hin Hf) as (i & y & H1 & H2 & H3). exists (S i), y. rewrite H1. auto.
Qed.

(** The group of a key present among the panes: its index, and its panes. *)
Lemma find_groups_index key size panes p :
  In p panes ->
  exists i g, find_index (fun g => gkey g =? key p) (find_groups key size panes) = Some i /\
    nth_error (find_groups key size panes) i = Some g /\
    gpanes g = filter (fun q => key q =? key p) panes.
Proof.
  intros Hp. destruct (find_groups_props key size panes) as (_ & Hcov & Hg).
  destruct (Hcov p Hp) as (g & Hin & Hk).
  destruct (find_index_exists (fun g => gkey g =? key p) _ g Hin ltac:(now apply Z.eqb_eq))
    as (i & g' & H1 & H2 & H3).
  exists i, g'. split; [exact H1|]. split; [exact H2|].
  apply Z.eqb_eq in H3. rewrite <- H3. apply Hg. eapply nth_error_In. exact H2.
Qed.

Lemma filter_hd_in {A} (f : A -> bool) l x d :
  In x l -> f x = true -> exists l', filter f l = hd d (filter f l) :: l'.
Proof.
  intros Hin Hf. destruct (filter f l) as [|y l'] eqn:E.
  - assert (In x (filter f l)) by (apply filter_In; auto). rewrite E in H. destruct H.
  - exists l'. reflexivity.
Qed.

(** [applyProportionalZoom] issues at most two commands and never fails.
    With more than one column (distinct left edges) it sets the width of
    the first pane of the active pane's column to [winWidth * p / 100];
    when that column holds more than one pane and more than one row
    (distinct top edges), it then sets the height of the first pane of the
    column at the active pane's top edge to [p]% of the column height (the
    heights of the column's panes plus one border per row gap). *)
Theorem applyProportionalZoom_commands (panes : list Pane.PaneInfo) (active : Pane.PaneInfo)
    (winWidth winHeight zoomPercent : Z) (h : Host) (log : list Cmd) :
  In active panes ->
  let colPanes := filter (fun p => Pane.Left p =? Pane.Left active) panes in
  let rowPanes := filter (fun p => Pane.Top p =? Pane.Top active) colPanes in
  let nrows := List.length (nodup Z.eq_dec (map Pane.Top colPanes)) in
  let colHeight := add64 (sum64 (map Pane.Height colPanes)) (sub64 (Z.of_nat nrows) 1) in
  applyProportionalZoom panes active winWidth winHeight zoomPercent h log =
  (inl tt, log ++
    (if (1 <? List.length (nodup Z.eq_dec (map Pane.Left panes)))%nat
     then [CmdResizePaneWidth (Pane.ID (hd active colPanes)) (quot64 (mul64 winWidth zoomPercent) 100)]
     else []) ++
    (if (1 <? List.length colPanes)%nat && (1 <? nrows)%nat
     then [CmdResizePaneHeight (Pane.ID (hd active rowPanes)) (quot64 (mul64 colHeight zoomPercent) 100)]
     else [])).
Proof.
  intros Hin colPanes rowPanes nrows colHeight.
  destruct (find_groups_index Pane.Left Pane.Width panes active Hin) as (i & gc & Hi & Hnth & Hgc).
  fold colPanes in Hgc.
  assert (Hac : In active colPanes) by (apply filter_In; split; [exact Hin | apply Z.eqb_refl]).
  destruct (filter_hd_in (fun p => Pane.Left p =? Pane.Left active) panes active active Hin
              (Z.eqb_refl _)) as (cs & Hcs). fold colPanes in Hcs.
  unfold applyProportionalZoom. fold (findColumns panes). unfold findColumns in *.
  cbv zeta. rewrite Hi.
  rewrite (find_groups_length Pane.Left Pane.Width panes).
  unfold bind at 1.
  set (wcmd := if (1 <? List.length (nodup Z.eq_dec (map Pane.Left panes)))%nat
               then [CmdResizePaneWidth (Pane.ID (hd active colPanes)) (quot64 (mul64 winWidth zoomPercent) 100)]
               else []).
  assert (Hw : (if (1 <? List.length (nodup Z.eq_dec (map Pane.Left panes)))%nat
                then resizeColumnsProportionally panes (find_groups Pane.Left Pane.Width panes) i
                       (quot64 (mul64 winWidth zoomPercent) 100) winWidth
                else ret tt) h log = (inl tt, log ++ wcmd)).
  { unfold wcmd. destruct (Nat.ltb_spec 1 (List.length (nodup Z.eq_dec (map Pane.Left panes)))) as [Hlt|Hge].
    - unfold resizeColumnsProportionally. rewrite find_groups_length.
      replace (List.length (nodup Z.eq_dec (map Pane.Left panes)) <=? 1)%nat with false
        by (symmetry; apply Nat.leb_gt; exact Hlt).
      rewrite Hnth, Hgc, Hcs. reflexivity.
    - unfold ret. now rewrite app_nil_r. }
  rewrite Hw. rewrite Hnth, Hgc.
  destruct (Nat.ltb_spec 1 (List.length colPanes)) as [Hc|Hc]; cbn [andb].
  2: { unfold ret. now rewrite !app_nil_r. }
  destruct (find_groups_index Pane.Top Pane.Height colPanes active Hac) as (j & gr & Hj & Hnth' & Hgr).
  fold rowPanes in Hgr. fold (findRowsInColumn colPanes). unfold findRowsInColumn in *.
  rewrite Hj. rewrite (find_groups_length Pane.Top Pane.Height colPanes). fold nrows colHeight.
  destruct (Nat.ltb_spec 1 nrows) as [Hr|Hr].
  - unfold resizeRowsProportionally. rewrite find_groups_length. fold nrows.
    replace (nrows <=? 1)%nat with false by (symmetry; apply Nat.leb_gt; exact Hr).
    rewrite Hnth', Hgr.
    destruct (filter_hd_in (fun p => Pane.Top p =? Pane.Top active) colPanes active active Hac
                (Z.eqb_refl _)) as (rs & Hrs). fold rowPanes in Hrs.
    rewrite Hrs. unfold ignore, ResizePaneHeight, run. now rewrite app_assoc.
  - unfold ret. now rewrite !app_nil_r.
Qed.

Lemma applyProportionalZoom_commands_witness :
  applyProportionalZoom
    [Pane.mkPaneInfo "%1" 0 100 30 0 0 false; Pane.mkPaneInfo "%2" 1 100 29 0 31 true;
     Pane.mkPaneInfo "%3" 2 99 60 101 0 false]
    (Pane.mkPaneInfo "%2" 1 100 29 0 31 true) 200 60 65
    (mkHost None None None None None None (fun _ => true)) [] =
  (inl tt, [CmdResizePaneWidth "%1" 130; CmdResizePaneHeight "%2" 39]).
Proof.
  pose proof (applyProportionalZoom_commands
    [Pane.mkPaneInfo "%1" 0 100 30 0 0 false; Pane.mkPaneInfo "%2" 1 100 29 0 31 true;
     Pane.mkPaneInfo "%3" 2 99 60 101 0 false]
    (Pane.mkPaneInfo "%2" 1 100 29 0 31 true) 200 60 65
    (mkHost None None None None None None (fun _ => true)) []
    (or_intror (or_introl eq_refl))) as H.
  cbv zeta in H. rewrite H. vm_compute. reflexivity.
Defined.

(** [applyZoomFallback] issues only [resize-pane] commands, at most two.
    It fails exactly when [list-panes] or one of the window size queries
    fails or a window size is not a number, and then it issues nothing;
    when no pane of the [list-panes] answer is active, it succeeds and
    issues nothing either. *)
Theorem applyZoomFallback_outcome (fh : FallbackHost) (state : State) (activePaneID : Z)
    (h : Host) (log : list Cmd) :
  exists r cmds,
    applyZoomFallback fh state activePaneID h log = (r, log ++ cmds) /\
    (List.length cmds <= 2)%nat /\
    Forall (fun c => match c with
                     | CmdResizePaneWidth _ _ | CmdResizePaneHeight _ _ => True
                     | _ => False
                     end) cmds /\
    (r = inl tt <->
       q_list_panes fh <> None /\
       exists w hh W H, q_window_width fh = Some w /\ q_window_height fh = Some hh /\
                        Atoi w = Some W /\ Atoi hh = Some H) /\
    ((r <> inl tt \/
      exists out, q_list_panes fh = Some out /\
                  List.find Pane.Active (panes_of_lines (split_on "010"%char out)) = None) ->
     cmds = []).
Proof.
  unfold applyZoomFallback, GetPanes, GetWindowSize, bind, query_answer, from_atoi, ret, fail.
  destruct (q_list_panes fh) as [out|] eqn:Hl.
  2: { exists (inr "tmux: exit status 1"%string), []. rewrite app_nil_r.
       split; [reflexivity|]. split; [cbn; lia|]. split; [constructor|].
       split; [split; [discriminate | intros [[] _]; reflexivity]|reflexivity]. }
  destruct (q_window_width fh) as [w|] eqn:Hw.
  2: { exists (inr "tmux: exit status 1"%string), []. rewrite app_nil_r.
       split; [reflexivity|]. split; [cbn; lia|]. split; [constructor|].
       split; [split; [discriminate | intros (_ & ? & ? & ? & ? & [=] & _)]|reflexivity]. }
  destruct (q_window_height fh) as [hh|] eqn:Hh.
  2: { exists (inr "tmux: exit status 1"%string), []. rewrite app_nil_r.
       split; [reflexivity|]. split; [cbn; lia|]. split; [constructor|].
       split; [split; [discriminate | intros (_ & ? & ? & ? & ? & _ & [=] & _)]|reflexivity]. }
  destruct (Atoi w) as [W|] eqn:HW.
  2: { exists (inr "strconv.Atoi: invalid syntax"%string), []. rewrite app_nil_r.
       split; [reflexivity|]. split; [cbn; lia|]. split; [constructor|].
       split; [split; [discriminate | intros (_ & ? & ? & ? & ? & [= <-] & [= <-] & E & _); congruence]
              |reflexivity]. }
  destruct (Atoi hh) as [H|] eqn:HH.
  2: { exists (inr "strconv.Atoi: invalid syntax"%string), []. rewrite app_nil_r.
       split; [reflexivity|]. split; [cbn; lia|]. split; [constructor|].
       split; [split; [discriminate | intros (_ & ? & ? & ? & ? & [= <-] & [= <-] & _ & E); congruence]
              |reflexivity]. }
  set (panes := panes_of_lines (split_on "010"%char out)).
  destruct (List.find Pane.Active panes) as [active|] eqn:Hf.
  - pose proof Hf as Hf'. apply find_some in Hf as [Hin _].
    unfold GetZoomPercent.
    pose proof (applyProportionalZoom_commands panes active W H
      (match q_zoom_percent_option h with
       | None | Some EmptyString => DefaultZoomPercent
       | Some out => match Atoi out with
                     | Some percent => if (percent <? 10) || (95 <? percent) then DefaultZoomPercent else percent
                     | None => DefaultZoomPercent end end) h log Hin) as Hp.
    cbv zeta in Hp. rewrite Hp.
    destruct (_ <? _)%nat; destruct (_ && _); eexists (inl tt), _; (split; [reflexivity|]);
      (split; [cbn; lia|]); (split; [cbn [app]; repeat constructor|]);
      (split; [split; [intros _; split; [discriminate | exists w, hh, W, H; auto] | reflexivity]
              | intros [C | (out' & E & Hn)]; [exfalso; now apply C | injection E as <-; unfold panes in Hf'; congruence]]).
  - exists (inl tt), []. rewrite app_nil_r. split; [reflexivity|]. split; [cbn; lia|].
    split; [constructor|]. split; [split; [intros _; split; [discriminate | exists w, hh, W, H; auto] | reflexivity]|].
    intros _. reflexivity.
Qed.

(** [cmdStatus] never fails and never runs a tmux command: it prints
    [status_text "ON"] exactly when the state file holds an enabled state
    and the current session and window names are both readable and equal
    to the saved ones, and [status_text "OFF"] otherwise (missing or
    unreadable file, disabled state, failing tmux query, other window). *)
Theorem cmdStatus_output (Unmarshal : string -> State + string) file h log :
  cmdStatus Unmarshal file h log =
  (inl (status_text
          (if match LoadState Unmarshal file with
              | inl st =>
                  Enabled st &&
                  match q_session_name h, q_window_index h with
                  | Some s, Some w => String.eqb s (Session st) && String.eqb w (Window st)
                  | _, _ => false
                  end
              | inr _ => false
              end
           then "ON" else "OFF")), log).
Proof.
  unfold cmdStatus.
  destruct (LoadState Unmarshal file) as [st|e]; [|reflexivity].
  destruct (Enabled st); [|reflexivity]. cbn [negb andb].
  unfold IsMatchingWindow, catch, bind, GetCurrentSession, GetCurrentWindow, query, ret.
  destruct (q_session_name h) as [s|]; [|reflexivity].
  destruct (q_window_index h) as [w|]; [|reflexivity].
  now destruct (String.eqb s (Session st) && String.eqb w (Window st)).
Qed.

(** [cmdApply], the pane-focus hook, runs no tmux command unless the state
    file holds an enabled state: with a missing file or a disabled state it
    succeeds and leaves the log unchanged, with an unreadable file it
    returns [LoadState]'s error unchanged, again without any command. *)
Theorem cmdApply_inactive (Unmarshal : string -> State + string)
    (applyZoomFallback : State -> Z -> M unit) file h log :
  match LoadState Unmarshal file with inl st => Enabled st = false | inr _ => True end ->
  cmdApply Unmarshal applyZoomFallback file h log =
  (match LoadState Unmarshal file with inl _ => inl tt | inr e => inr e end, log).
Proof.
  unfold cmdApply. destruct (LoadState Unmarshal file) as [st|e]; [|reflexivity].
  intros ->. reflexivity.
Qed.

Lemma cmdApply_inactive_witness :
  cmdApply (fun _ => inr "unexpected end of JSON input"%string)
           (fun _ _ => fail "unused"%string) FileMissing
    (mkHost (Some "main"%string) (Some "1"%string) (Some "%2"%string) (Some "2"%string) None None (fun _ => true))
    [] = (inl tt, []).
Proof.
  exact (cmdApply_inactive (fun _ => inr "unexpected end of JSON input"%string)
           (fun _ _ => fail "unused"%string) FileMissing
    (mkHost (Some "main"%string) (Some "1"%string) (Some "%2"%string) (Some "2"%string) None None (fun _ => true))
    [] eq_refl).
Defined.

(** Turning focus zoom off ([cmdToggle] on an enabled state) runs at most
    three commands: a [select-layout] of the saved snapshot, only when the
    snapshot is non-empty, parses, and has as many panes as the window now
    reports (0 when that query fails); then the removal of the state file;
    then the "OFF" message. A failing restore is ignored; a failing
    [ClearState] stops before the message with the error
    ["ClearState: command failed"]. *)
Theorem cmdToggle_disable (Unmarshal : string -> State + string)
    (applyZoomFallback : State -> Z -> M unit) file st h log :
  LoadState Unmarshal file = inl st ->
  Enabled st = true ->
  let currentPanes := match q_window_panes h with Some out => atoi_value out | None => 0 end in
  let canRestore :=
    negb (String.eqb (Snapshot st) EmptyString) &&
    match ParseLayout (Snapshot st) with
    | Ok t => countPanes t =? currentPanes
    | _ => false
    end in
  let restore := if canRestore then [CmdSelectLayout (Snapshot st)] else [] in
  cmdToggle Unmarshal applyZoomFallback file h log =
  if cmd_succeeds h CmdClearState then
    (if cmd_succeeds h (CmdDisplayMessage "Focus zoom: OFF") then inl tt
     else inr "command failed"%string,
     log ++ restore ++ [CmdClearState; CmdDisplayMessage "Focus zoom: OFF"])
  else (inr "ClearState: command failed"%string, log ++ restore ++ [CmdClearState]).
Proof.
  intros Hl He currentPanes canRestore restore.
  unfold cmdToggle. rewrite Hl, He. subst restore canRestore currentPanes.
  destruct (String.eqb (Snapshot st) EmptyString) eqn:Es; cbn [negb andb].
  2: destruct (ParseLayout (Snapshot st)) as [t| |] eqn:Ep.
  2: destruct (countPanes t =? match q_window_panes h with
                                | Some out => atoi_value out
                                | None => 0 end) eqn:Ec.
  all: unfold bind, ret, GetPaneCount_ignoring_err, ignore, RestoreSnapshot, SelectLayout,
         wrap_err, catch, ClearState, DisplayMessage, run, fail; rewrite ?Es, ?Ec.
  all: destruct (cmd_succeeds h CmdClearState); rewrite <- ?app_assoc; reflexivity.
Qed.

Lemma cmdToggle_disable_witness :
  let snap := "b2d9,255x61,0,0{84x61,0,0[84x30,0,0,26,84x30,0,31,41],85x61,85,0,36,84x61,171,0,42}"%string in
  let U := fun _ : string => inl (mkState true "main" "1" snap) : State + string in
  let h := mkHost (Some "main"%string) (Some "1"%string) (Some "%26"%string) (Some "4"%string)
             None None (fun _ => true) in
  cmdToggle U (fun _ _ => fail "unused"%string) (FileData "{}") h [] =
  (inl tt, [CmdSelectLayout snap; CmdClearState; CmdDisplayMessage "Focus zoom: OFF"]).
Proof.
  intros snap U h.
  pose proof (cmdToggle_disable U (fun _ _ => fail "unused"%string) (FileData "{}") _ h []
                eq_refl eq_refl) as E.
  cbv zeta in E. rewrite E. vm_compute. reflexivity.
Defined.

(** Turning focus zoom on ([cmdToggle] on a disabled or missing state), in
    a window of [n > 1] panes whose current layout parses to a tree of [n]
    panes, and with every command succeeding, runs exactly three commands:
    it saves the enabled state (current session, window and layout as the
    snapshot), selects the zoomed layout of the current tree around the
    active pane, and shows the "ON" message. *)
Theorem cmdToggle_enable (Unmarshal : string -> State + string)
    (applyZoomFallback : State -> Z -> M unit) file st0 h log
    s w L np n pid id t zp :
  LoadState Unmarshal file = inl st0 ->
  Enabled st0 = false ->
  q_session_name h = Some s ->
  q_window_index h = Some w ->
  q_window_layout h = Some L ->
  q_window_panes h = Some np ->
  Atoi np = Some n ->
  1 < n ->
  ParseLayout L = Ok t ->
  countPanes t = n ->
  q_pane_id h = Some (String "%" pid) ->
  Atoi pid = Some id ->
  (forall l, GetZoomPercent h l = (inl zp, l)) ->
  cmd_succeeds h (CmdSaveState (mkState true s w L)) = true ->
  cmd_succeeds h (CmdSelectLayout (BuildLayout (zoom_transform t id zp))) = true ->
  cmd_succeeds h (CmdDisplayMessage "Focus zoom: ON") = true ->
  cmdToggle Unmarshal applyZoomFallback file h log =
  (inl tt, log ++ [CmdSaveState (mkState true s w L);
                   CmdSelectLayout (BuildLayout (zoom_transform t id zp));
                   CmdDisplayMessage "Focus zoom: ON"]).
Proof.
  intros HL HE Hs Hw Hlay Hp Hn H1 Hparse Hc Hid Hpid Hzp Ok1 Ok2 Ok3.
  unfold cmdToggle. rewrite HL, HE.
  unfold wrap_err, ApplyZoom, CaptureSnapshot, GetPaneCount, GetActivePaneID,
    GetCurrentSession, GetCurrentWindow, GetWindowLayout.
  unfold catch, bind, query, ret, from_atoi.
  rewrite Hs, Hw, Hlay.
  unfold SaveState, SelectLayout, DisplayMessage, RestoreSnapshot, run, fail, ret.
  cbn [Session Window Snapshot Enabled].
  rewrite Ok1, Hp, Hn, Hparse, Hc, Z.eqb_refl.
  replace (n <=? 1) with false by (symmetry; apply Z.leb_gt; lia).
  cbn beta iota.
  rewrite Hs, Hw, !String.eqb_refl. cbn [negb orb]. cbn beta iota.
  rewrite Hid. cbn beta iota. rewrite (Ascii.eqb_refl "%"%char).
  rewrite Hpid. cbn beta iota. rewrite Hzp. cbn beta iota.
  rewrite Ok2. cbn beta iota.
  unfold wrap_err, catch, bind, DisplayMessage, run. rewrite Ok3.
  now rewrite <- !app_assoc.
Qed.

Lemma cmdToggle_enable_witness :
  let snap := "b2d9,255x61,0,0{84x61,0,0[84x30,0,0,26,84x30,0,31,41],85x61,85,0,36,84x61,171,0,42}"%string in
  let t := mkLayoutNode 255 61 0 0 (-1) SplitHorizontal
          [mkLayoutNode 84 61 0 0 (-1) SplitVertical
             [mkLayoutNode 84 30 0 0 26 SplitNone [];
              mkLayoutNode 84 30 0 31 41 SplitNone []];
           mkLayoutNode 85 61 85 0 36 SplitNone [];
           mkLayoutNode 84 61 171 0 42 SplitNone []] in
  let h := mkHost (Some "main"%string) (Some "1"%string) (Some "%26"%string) (Some "4"%string)
             (Some snap) None (fun _ => true) in
  cmdToggle (fun _ => inr "unused"%string) (fun _ _ => fail "unused"%string) FileMissing h [] =
  (inl tt, [CmdSaveState (mkState true "main" "1" snap);
            CmdSelectLayout (BuildLayout (zoom_transform t 26 65));
            CmdDisplayMessage "Focus zoom: ON"]).
Proof.
  intros snap t h.
  apply (cmdToggle_enable (fun _ => inr "unused"%string) (fun _ _ => fail "unused"%string)
           FileMissing (mkState false "" "" "") h [] "main" "1" snap "4" 4 "26" 26 t 65);
    try reflexivity; try lia; vm_compute; reflexivity.
Defined.
